(** * The SPSA tutorial: the run loop of [demonstrations/tutorial_spsa.py]

    The script defines one function, [run_optimizer], and calls it four
    times with optimizers of the PennyLane library.  This development
    embeds the function with its Python effects made explicit:

    - arrays live in a store of objects addressed by locations, so that
      [init_param.copy()] and in-place updates by an optimizer or by a
      cost function can be told apart;
    - the cost function and the optimizer are stateful and may raise;
    - every call of the cost function made through the run loop is
      recorded in a log, and so is every line printed.

    The scalar type of parameters and costs is left abstract: nothing
    the run loop does depends on arithmetic of floating-point numbers. *)

From Stdlib Require Import ZArith QArith Qround Lia String.
From stdpp Require Import base gmap list.

Close Scope Q_scope.
Local Open Scope Z_scope.

(** ** Python lists *)

(** [l[i]] for a Python list: a negative index counts from the end, an
    index out of range raises [IndexError] (here: [None]). *)
Definition getitem {A : Type} (l : list A) (i : Z) : option A :=
  if 0 <=? i then l !! Z.to_nat i
  else if - i <=? Z.of_nat (length l) then l !! (length l - Z.to_nat (- i))%nat
  else None.

(** [range(n)]: empty when [n <= 0]. *)
Definition range (n : Z) : list Z := Z.of_nat <$> seq 0 (Z.to_nat n).

(** ** Counts of executions *)

(** The integers the script counts executions with.  [execs_per_step] is a
    Python [int] for SPSA (lines 266 and 456) and a [numpy.int64] for
    gradient descent (lines 279 and 401, through [np.prod]); the first is
    unbounded, the second has 64 bits and wraps without an exception. *)
Inductive count : Type :=
| PyInt (z : Z)
| Int64 (z : Z).

Coercion PyInt : Z >-> count.

(** The number a count stands for. *)
Definition value (c : count) : Z :=
  match c with PyInt z => z | Int64 z => z end.

(** The signed 64-bit integer congruent to [z]. *)
Definition wrap64 (z : Z) : Z := (z + 2 ^ 63) mod 2 ^ 64 - 2 ^ 63.

(** [a * b]: a Python [int] when both are, a [numpy.int64] otherwise,
    with the product wrapped to 64 bits.  A Python [int] next to a
    [numpy.int64] is a step count or one of the literals 2 and 15 here;
    numpy converts it to 64 bits first, and [no_overflow] below keeps the
    step counts within them. *)
Definition count_mul (a b : count) : count :=
  match a, b with
  | PyInt x, PyInt y => PyInt (x * y)
  | _, _ => Int64 (wrap64 (value a * value b))
  end.

(** [z] is a signed 64-bit integer. *)
Definition fits64 (z : Z) : Prop := - 2 ^ 63 <= z < 2 ^ 63.

(** The totals of [n] steps at [execs_per_step] each do not leave the
    integer type of [execs_per_step]: nothing to ask of a Python [int];
    for a [numpy.int64], the number of steps and the last total fit 64
    bits. *)
Definition no_overflow (n : Z) (execs_per_step : count) : Prop :=
  match execs_per_step with
  | PyInt _ => True
  | Int64 z => 1 <= n -> fits64 n /\ fits64 z /\ fits64 (n * z)
  end.

(** Entry [j] of [exec_history] as [run_optimizer] computes it: the
    literal [0] first, then [(step + 1) * execs_per_step] for
    [step = j - 1]. *)
Definition total (execs_per_step : count) (j : nat) : count :=
  match j with
  | O => PyInt 0
  | S _ => count_mul (PyInt (Z.of_nat j)) execs_per_step
  end.

(** ** Objects, worlds and effects *)

Definition loc := positive.

(** [qml.device("qiskit.aer", wires=..., shots=...)]. *)
Record Device := mkDevice { short_name : string; wires : Z; shots : Z }.

Section RunLoop.

(** [real]: the scalars; [OptState]: the mutable state of the optimizer
    object; [Env]: the state behind the cost function (device, sampling
    noise, call counters of a test double); [Err]: what they raise. *)
Context {real OptState Env Err : Type}.

Inductive exn : Type :=
| ZeroDivisionError
| IndexError
| Propagated (e : Err).

(** A printed line: the banner before the loop, or a status line. *)
Inductive event : Type :=
| Banner (name : string) (num_steps : Z)
| Status (step : Z) (execs : count) (cost : real).

Record World : Type := mkWorld {
  store : gmap loc (list real);
  opt_state : OptState;
  env : Env;
  evals : list (list real);
  stdout : list event
}.

Inductive outcome (A : Type) : Type :=
| Ok (a : A) (w : World)
| Raise (e : exn) (w : World).
#[local] Arguments Ok {A} a w.
#[local] Arguments Raise {A} e w.

Definition M (A : Type) : Type := World -> outcome A.

Definition ret {A : Type} (a : A) : M A := fun w => Ok a w.

Definition bind {A B : Type} (m : M A) (k : A -> M B) : M B := fun w =>
  match m w with
  | Ok a w' => k a w'
  | Raise e w' => Raise e w'
  end.

Definition raise {A : Type} (e : exn) : M A := fun w => Raise e w.

Definition get_opt_state : M OptState := fun w => Ok (opt_state w) w.

Definition put_opt_state (s : OptState) : M unit := fun w =>
  Ok tt (mkWorld (store w) s (env w) (evals w) (stdout w)).

(** The values held by the array at [l]. *)
Definition read (l : loc) : M (list real) := fun w => Ok (store w !!! l) w.

Definition print (ev : event) : M unit := fun w =>
  Ok tt (mkWorld (store w) (opt_state w) (env w) (evals w) (stdout w ++ [ev])).

(** A cost function as the run loop sees it: a callable that receives a
    reference to an array; it may read and write the store, has a state
    of its own, and returns a scalar or raises. *)
Definition callable : Type :=
  loc -> gmap loc (list real) -> Env ->
  (exn + real) * gmap loc (list real) * Env.

(** [qml.QNode(circuit, device)]: a callable with a [device] attribute. *)
Record QNode : Type := mkQNode { device : Device; qfunc : callable }.

(** [cost_function(param)]: the call is logged with the values the
    argument holds when the call is issued. *)
Definition evaluate (cf : QNode) (l : loc) : M real := fun w =>
  let log := evals w ++ [store w !!! l] in
  match qfunc cf l (store w) (env w) with
  | (inr y, s, o) => Ok y (mkWorld s (opt_state w) o log (stdout w))
  | (inl e, s, o) => Raise e (mkWorld s (opt_state w) o log (stdout w))
  end.

(** An optimizer object: its class name and its [step] method, which
    receives the cost function as a callable and a reference to the
    current parameters, and returns a reference to the new ones. *)
Record Optimizer : Type := mkOptimizer {
  class_name : string;
  step : (loc -> M real) -> loc -> M loc
}.

(** A new array object holding [v]. *)
Definition alloc (v : list real) (w : World) : loc * World :=
  let l := fresh (dom (store w)) in
  (l, mkWorld (<[l := v]> (store w))
              (opt_state w) (env w) (evals w) (stdout w)).

Definition new_array (v : list real) : M loc := fun w =>
  let '(l, w') := alloc v w in Ok l w'.

(** [init_param.copy()]: a new object holding the same values. *)
Definition copy (l : loc) (w : World) : loc * World :=
  alloc (store w !!! l) w.

(** ** [run_optimizer] *)

(** The local variables of [run_optimizer]. *)
Record Locals : Type := mkLocals {
  param : loc;
  dev : Device;
  cost_history : list real;
  exec_history : list count
}.

Definition set_param (p : loc) (st : Locals) : Locals :=
  mkLocals p (dev st) (cost_history st) (exec_history st).

Definition append_cost (c : real) (st : Locals) : Locals :=
  mkLocals (param st) (dev st) (cost_history st ++ [c]) (exec_history st).

Definition append_execs (n : count) (st : Locals) : Locals :=
  mkLocals (param st) (dev st) (cost_history st) (exec_history st ++ [n]).

(** How a call of [run_optimizer] ends: it returns the two histories,
    or an exception leaves it; in the second case the local variables
    are given as they were when the exception was raised. *)
Inductive RunOutcome : Type :=
| Returned (cost_h : list real) (exec_h : list count) (w : World)
| Aborted (e : exn) (st : Locals) (w : World).

(** How the loop ends: it runs out of steps, or an exception leaves it. *)
Inductive LoopOutcome : Type :=
| Exhausted (st : Locals) (w : World)
| Broken (e : exn) (st : Locals) (w : World).

(** The status line [Step i: Circuit executions: exec_history[j], Cost =
    cost_history[j]]. *)
Definition print_status (i j : Z) (st : Locals) : M unit :=
  match getitem (exec_history st) j, getitem (cost_history st) j with
  | Some e, Some c => print (Status i e c)
  | _, _ => raise IndexError
  end.

(** [if step % interval == 0: print(...)]. *)
Definition status_check (i interval : Z) (st : Locals) : M unit :=
  if interval =? 0 then raise ZeroDivisionError
  else if i mod interval =? 0 then print_status i i st
  else ret tt.

Section Loop.

Variables (opt : Optimizer) (cost_function : QNode).
Variables (interval : Z) (execs_per_step : count).

(** The [for step in range(num_steps)] loop, over the remaining values
    of [step]. *)
Fixpoint loop (steps : list Z) (st : Locals) (w : World) : LoopOutcome :=
  match steps with
  | [] => Exhausted st w
  | i :: rest =>
      match status_check i interval st w with
      | Raise e w1 => Broken e st w1
      | Ok _ w1 =>
          match step opt (evaluate cost_function) (param st) w1 with
          | Raise e w2 => Broken e st w2
          | Ok p w2 =>
              let st1 := set_param p st in
              match evaluate cost_function p w2 with
              | Raise e w3 => Broken e st1 w3
              | Ok c w3 =>
                  let st2 := append_cost c st1 in
                  let st3 :=
                    append_execs (count_mul (PyInt (i + 1)) execs_per_step) st2 in
                  loop rest st3 w3
              end
          end
      end
  end.

End Loop.

Definition run_optimizer (opt : Optimizer) (cost_function : QNode)
    (init_param : loc) (num_steps interval : Z) (execs_per_step : count)
    (w : World) : RunOutcome :=
  let '(p, w0) := copy init_param w in
  let st0 := mkLocals p (device cost_function) [] [] in
  match evaluate cost_function p w0 with
  | Raise e w1 => Aborted e st0 w1
  | Ok c w1 =>
      let st1 := append_execs (PyInt 0) (append_cost c st0) in
      match print (Banner (class_name opt) num_steps) w1 with
      | Raise e w2 => Aborted e st1 w2
      | Ok _ w2 =>
          match loop opt cost_function interval execs_per_step
                     (range num_steps) st1 w2 with
          | Broken e st w3 => Aborted e st w3
          | Exhausted st w3 =>
              match print_status num_steps (-1) st w3 with
              | Raise e w4 => Aborted e st w4
              | Ok _ w4 => Returned (cost_history st) (exec_history st) w4
              end
          end
      end
  end.

End RunLoop.

Arguments exn : clear implicits.
Arguments event : clear implicits.
Arguments World : clear implicits.
Arguments outcome : clear implicits.
Arguments M : clear implicits.
Arguments callable : clear implicits.
Arguments QNode : clear implicits.
Arguments Optimizer : clear implicits.
Arguments Locals : clear implicits.
Arguments RunOutcome : clear implicits.
Arguments LoopOutcome : clear implicits.
Arguments Ok {real OptState Env Err A} a w.
Arguments Raise {real OptState Env Err A} e w.

Notation "x <- m ;; k" := (bind m (fun x => k))
  (at level 100, m at next level, right associativity).

(** ** The SPSA strategy *)

(** The optimizer classes are PennyLane's; the script only constructs
    them.  The single-step operation of SPSA is taken from section 4.2 of
    the specification. *)

(** Modelled from the spec: the arithmetic of the real numbers that the
    formulas of section 4.2 use; the optimizer class is not part of the
    repository. *)
Class RealOps (real : Type) : Type := mkRealOps {
  of_Z : Z -> real;
  radd : real -> real -> real;
  rsub : real -> real -> real;
  rmul : real -> real -> real;
  rdiv : real -> real -> real;
  rpow : real -> real -> real;
  rltb : real -> real -> bool
}.

(** Modelled from the spec: the seedable random source of section 9,
    which the optimizer class (not part of the repository) is to draw
    from; its state is the seed, a draw yields one sign ([true] for +1,
    [false] for -1) and the next state. *)
Class RandomSource (G : Type) : Type := mkRandomSource {
  next_sign : G -> bool * G
}.

(** Modelled from the spec: the error taxonomy of section 7; no such
    exception class is part of the repository. *)
Inductive CoreError (X : Type) : Type :=
| ConfigurationError
| OracleError (x : X)
| ShapeMismatchError.
Arguments ConfigurationError {X}.
Arguments OracleError {X} x.
Arguments ShapeMismatchError {X}.

(** Modelled from the spec: the construction options of SPSA as a caller
    passes them, section 6; the optimizer class is not part of the
    repository. *)
Record SpsaOptions (real : Type) : Type := mkSpsaOptions {
  max_iterations : Z;
  c : real;
  a : real;
  alpha : real;
  gamma : real;
  stability_offset : real
}.
Arguments mkSpsaOptions {real}.
Arguments max_iterations {real}.
Arguments c {real}.
Arguments a {real}.
Arguments alpha {real}.
Arguments gamma {real}.
Arguments stability_offset {real}.

(** Modelled from the spec: the checks of sections 6 and 7 on the options
    of SPSA, [max_iterations > 0], [c > 0], [a > 0] and
    [stability_offset >= 0]; the optimizer class is not part of the
    repository. *)
Definition spsa_options_valid {real : Type} {ops : RealOps real}
    (o : SpsaOptions real) : bool :=
  (0 <? max_iterations o) && rltb (of_Z 0) (c o) && rltb (of_Z 0) (a o)
  && negb (rltb (stability_offset o) (of_Z 0)).

(** Modelled from the spec: the configuration of a constructed SPSA
    optimizer, options that passed the checks (sections 4.2 and 7:
    construction with [c = 0] fails); the optimizer class is not part of
    the repository. *)
Record SpsaConfig (real : Type) {ops : RealOps real} : Type := mkSpsaConfig {
  spsa_options :> SpsaOptions real;
  spsa_valid : spsa_options_valid spsa_options = true
}.
Arguments mkSpsaConfig {real ops}.
Arguments spsa_options {real ops}.
Arguments spsa_valid {real ops}.

(** Modelled from the spec: the construction options of gradient descent
    as a caller passes them, section 6; the optimizer class is not part of
    the repository. *)
Record GdOptions (real : Type) : Type := mkGdOptions { stepsize : real }.
Arguments mkGdOptions {real}.
Arguments stepsize {real}.

(** Modelled from the spec: the check of sections 6 and 7 on the options
    of gradient descent, [stepsize > 0]; the optimizer class is not part
    of the repository. *)
Definition gd_options_valid {real : Type} {ops : RealOps real}
    (o : GdOptions real) : bool :=
  rltb (of_Z 0) (stepsize o).

(** Modelled from the spec: the configuration of a constructed gradient
    descent optimizer, options that passed the check; the optimizer class
    is not part of the repository. *)
Record GdConfig (real : Type) {ops : RealOps real} : Type := mkGdConfig {
  gd_options :> GdOptions real;
  gd_valid : gd_options_valid gd_options = true
}.
Arguments mkGdConfig {real ops}.
Arguments gd_options {real ops}.
Arguments gd_valid {real ops}.

(** Modelled from the spec: the parameter-shift rule behind the gradient
    of section 4.3 (two evaluations per free parameter, section 4.1 and
    lines 38 to 49 of the script): the shift of a parameter and the factor
    of the difference; the gradient is computed by the library. *)
Record ShiftRule (real : Type) : Type := mkShiftRule {
  shift : real;
  factor : real
}.
Arguments mkShiftRule {real}.
Arguments shift {real}.
Arguments factor {real}.

(** Modelled from the spec: the state of the optimizer of section 3, the
    iteration index (it starts at 1) and the random source; the optimizer
    class is not part of the repository. *)
Record SpsaState (G : Type) : Type := mkSpsaState { k : Z; rng : G }.
Arguments mkSpsaState {G}.
Arguments k {G}.
Arguments rng {G}.

Section SPSA.

Context {real G Env X : Type} {ops : RealOps real} {src : RandomSource G}.

#[local] Abbreviation Eff := (M real (SpsaState G) Env (CoreError X)).

(** Modelled from the spec: the decaying scalars of step 1 of section 4.2,
    [a_k = a / (k + A + 1)^alpha] and [c_k = c / (k + 1)^gamma]; the
    optimizer class is not part of the repository. *)
Definition a_k (cfg : SpsaConfig real) (i : Z) : real :=
  rdiv (a cfg)
       (rpow (radd (radd (of_Z i) (stability_offset cfg)) (of_Z 1)) (alpha cfg)).

(** Modelled from the spec: [c_k] of step 1 of section 4.2; the optimizer
    class is not part of the repository. *)
Definition c_k (cfg : SpsaConfig real) (i : Z) : real :=
  rdiv (c cfg) (rpow (radd (of_Z i) (of_Z 1)) (gamma cfg)).

(** Modelled from the spec: a component of the perturbation vector of
    section 4.2 as a scalar; the optimizer class is not part of the
    repository. *)
Definition sign (b : bool) : real := if b then of_Z 1 else of_Z (-1).

(** Modelled from the spec: step 2 of section 4.2, a perturbation vector
    of length [p] whose components are drawn one after the other, each +1
    or -1; the optimizer class is not part of the repository. *)
Fixpoint draw (p : nat) (g : G) : list bool * G :=
  match p with
  | O => ([], g)
  | S p' =>
      let '(b, g1) := next_sign g in
      let '(bs, g2) := draw p' g1 in
      (b :: bs, g2)
  end.

(** Modelled from the spec: the points of step 3 of section 4.2,
    [theta + c_k * Delta] and [theta - c_k * Delta]; the optimizer class
    is not part of the repository. *)
Definition shifted (pm : real -> real -> real) (ck : real)
    (theta : list real) (delta : list bool) : list real :=
  zip_with (fun t d => pm t (rmul ck (sign d))) theta delta.

(** Modelled from the spec: the update of step 5 of section 4.2,
    [theta_i - a_k * g_scale / Delta_i]; the optimizer class is not part
    of the repository. *)
Definition updated (ak g_scale : real)
    (theta : list real) (delta : list bool) : list real :=
  zip_with (fun t d => rsub t (rdiv (rmul ak g_scale) (sign d))) theta delta.

(** Modelled from the spec: the single-step operation of section 4.2.  The
    optimizer class is not part of the repository.  A vector of length
    zero is refused at the call (sections 4.2 and 7); the two evaluations
    use the same draw; the update is written to a new vector; the
    iteration index is advanced. *)
Definition spsa_step (cfg : SpsaConfig real)
    (objective : loc -> Eff real) (l : loc) : Eff loc :=
  theta <- read l ;;
  match theta with
  | [] => raise (Propagated ConfigurationError)
  | _ :: _ =>
      st <- get_opt_state ;;
      let ak := a_k cfg (k st) in
      let ck := c_k cfg (k st) in
      let '(delta, g) := draw (length theta) (rng st) in
      _ <- put_opt_state (mkSpsaState (k st) g) ;;
      lp <- new_array (shifted radd ck theta delta) ;;
      lm <- new_array (shifted rsub ck theta delta) ;;
      y_plus <- objective lp ;;
      y_minus <- objective lm ;;
      let g_scale := rdiv (rsub y_plus y_minus) (rmul (of_Z 2) ck) in
      l' <- new_array (updated ak g_scale theta delta) ;;
      st' <- get_opt_state ;;
      _ <- put_opt_state (mkSpsaState (k st' + 1) (rng st')) ;;
      ret l'
  end.

(** Modelled from the spec: the optimizer object of a construction that
    passed the checks, with the step above; the optimizer class is not
    part of the repository. *)
Definition SPSAOptimizer (cfg : SpsaConfig real)
    : Optimizer real (SpsaState G) Env (CoreError X) :=
  mkOptimizer "SPSAOptimizer" (spsa_step cfg).

(** Modelled from the spec: the call [qml.SPSAOptimizer(maxiter=..., c=...,
    a=...)]; options that fail a check are refused with a configuration
    error (sections 4.2, 7 and 8); the optimizer class is not part of the
    repository. *)
Definition new_SPSAOptimizer (o : SpsaOptions real)
    : CoreError X + Optimizer real (SpsaState G) Env (CoreError X) :=
  match spsa_options_valid o as b return spsa_options_valid o = b -> _ with
  | true => fun H => inr (SPSAOptimizer (mkSpsaConfig o H))
  | false => fun _ => inl ConfigurationError
  end eq_refl.

(** Modelled from the spec: the state of a newly constructed optimizer,
    at iteration 1 (section 4.2); the optimizer class is not part of the
    repository. *)
Definition spsa_init (seed : G) : SpsaState G := mkSpsaState 1 seed.

End SPSA.

(** ** The gradient descent strategy *)

Section GradientDescent.

Context {real OptState Env X : Type} {ops : RealOps real}.

#[local] Abbreviation Eff' := (M real OptState Env (CoreError X)).

(** Modelled from the spec: the partial derivatives of the parameter-shift
    rule, one parameter after the other, each from two evaluations, at the
    parameter shifted up and shifted down (section 4.1, and lines 38 to 49
    of the script); the gradient is computed by the library. *)
Fixpoint partials (rule : ShiftRule real) (objective : loc -> Eff' real)
    (theta : list real) (indices : list nat) : Eff' (list real) :=
  match indices with
  | [] => ret []
  | i :: rest =>
      lp <- new_array (alter (fun t => radd t (shift rule)) i theta) ;;
      lm <- new_array (alter (fun t => rsub t (shift rule)) i theta) ;;
      y_plus <- objective lp ;;
      y_minus <- objective lm ;;
      gs <- partials rule objective theta rest ;;
      ret (rmul (factor rule) (rsub y_plus y_minus) :: gs)
  end.

(** Modelled from the spec: the gradient of section 6,
    [gradient(ParameterVector) -> ParameterVector], by the parameter-shift
    rule; the gradient is computed by the library. *)
Definition parameter_shift (rule : ShiftRule real)
    (objective : loc -> Eff' real) (l : loc) : Eff' (list real) :=
  theta <- read l ;;
  partials rule objective theta (seq 0 (length theta)).

(** Modelled from the spec: the single-step operation of section 4.3,
    [theta - stepsize * gradient].  The optimizer class is not part of the
    repository.  A vector of length zero is refused at the call, and so is
    a gradient of another length than the parameters, before any update
    (section 7); the update is written to a new vector. *)
Definition gd_step (cfg : GdConfig real)
    (gradient : (loc -> Eff' real) -> loc -> Eff' (list real))
    (objective : loc -> Eff' real) (l : loc) : Eff' loc :=
  theta <- read l ;;
  match theta with
  | [] => raise (Propagated ConfigurationError)
  | _ :: _ =>
      g <- gradient objective l ;;
      if (length g =? length theta)%nat
      then new_array
             (zip_with (fun t gi => rsub t (rmul (stepsize cfg) gi)) theta g)
      else raise (Propagated ShapeMismatchError)
  end.

(** Modelled from the spec: the optimizer object of a construction that
    passed the check, with the step above and the gradient of the library;
    the optimizer class is not part of the repository. *)
Definition GradientDescentOptimizer (cfg : GdConfig real)
    (rule : ShiftRule real) : Optimizer real OptState Env (CoreError X) :=
  mkOptimizer "GradientDescentOptimizer" (gd_step cfg (parameter_shift rule)).

(** Modelled from the spec: the call
    [qml.GradientDescentOptimizer(stepsize=...)]; a step size that is not
    positive is refused with a configuration error (section 7); the
    optimizer class is not part of the repository. *)
Definition new_GradientDescentOptimizer (o : GdOptions real)
    (rule : ShiftRule real)
    : CoreError X + Optimizer real OptState Env (CoreError X) :=
  match gd_options_valid o as b return gd_options_valid o = b -> _ with
  | true => fun H => inr (GradientDescentOptimizer (mkGdConfig o H) rule)
  | false => fun _ => inl ConfigurationError
  end eq_refl.

End GradientDescent.

(** ** The calls of the script *)

Module Script.

(** The two experiments of the script: the circuit on the sampling device
    (lines 170 to 282) and the hydrogen molecule on the simulated hardware
    (lines 335 to 460). *)
Inductive Experiment : Type := Sampling | VQE.

Definition num_wires : Z := 4.
Definition num_layers : Z := 5.

(** The number of entries of an array of shape [param_shape], as
    [np.random.normal(..., size=param_shape)] creates it for [init_param]
    (lines 190 and 394): the number [p] of free parameters. *)
Definition array_size (param_shape : list Z) : Z := foldr Z.mul 1 param_shape.

(** [np.prod(param_shape)] on a tuple of Python integers that fit 64
    bits each: the product as a [numpy.int64], wrapped to 64 bits. *)
Definition np_prod (param_shape : list Z) : count :=
  Int64 (wrap64 (foldr Z.mul 1 param_shape)).

(** [param_shape = (2, num_qubits, 3)]; [num_qubits] is returned by
    [qchem.molecular_hamiltonian] (4 for the molecule of the script). *)
Definition param_shape_vqe (num_qubits : Z) : list Z := [2; num_qubits; 3].

(** The number of Hamiltonian terms, each measured by a circuit of its
    own: one observable on the sampling device, 15 terms for [h2_ham]. *)
Definition circuits_per_evaluation (e : Experiment) : Z :=
  match e with Sampling => 1 | VQE => 15 end.

Definition num_steps_spsa (e : Experiment) : Z :=
  match e with Sampling => 200 | VQE => 160 end.

Definition num_steps_grad : Z := 15.

(** [execs_per_step] as it is set before each call with the SPSA
    optimizer (lines 266 and 456). *)
Definition execs_per_step_spsa (e : Experiment) : count :=
  match e with
  | Sampling => PyInt 2
  | VQE => count_mul (PyInt 2) (PyInt 15)
  end.

(** [execs_per_step] as it is set before each call with the gradient
    descent optimizer (lines 279 and 401). *)
Definition execs_per_step_grad (e : Experiment) (param_shape : list Z)
    : count :=
  match e with
  | Sampling => count_mul (PyInt 2) (np_prod param_shape)
  | VQE => count_mul (count_mul (PyInt 2) (PyInt 15)) (np_prod param_shape)
  end.

(** The status interval of each call. *)
Definition interval_spsa : Z := 20.
Definition interval_grad : Z := 3.

(** [np.where(cond)[0]] for a one-dimensional array: the indices, in
    increasing order and counted from [i], at which the condition holds. *)
Fixpoint np_where {A : Type} (cond : A -> bool) (i : nat) (l : list A)
    : list nat :=
  match l with
  | [] => []
  | x :: l' =>
      if cond x then i :: np_where cond (S i) l'
      else np_where cond (S i) l'
  end.

(** [exec_history[np.where(np.array(cost_history) < -0.99)[0][0]]] (lines
    312 and 313): the executions recorded at the first cost below the
    threshold.  [below] is the comparison [_ < -0.99]; taking element 0 of
    an empty array of indices raises [IndexError], and so does an index
    outside [exec_history]. *)
Definition execs_to_prec {real Err : Type} (below : real -> bool)
    (exec_history : list count) (cost_history : list real)
    : exn Err + count :=
  match np_where below 0 cost_history !! 0%nat with
  | None => inl IndexError
  | Some i =>
      match getitem exec_history (Z.of_nat i) with
      | None => inl IndexError
      | Some e => inr e
      end
  end.

End Script.

(** ** Properties of cost functions and optimizers *)

Section Contracts.

Context {real OptState Env Err : Type}.

(** The cost function returns a value at every call. *)
Definition never_raises (cf : QNode real Env Err) : Prop :=
  forall l s o, exists y s' o', qfunc cf l s o = (inr y, s', o').

(** The optimizer step returns at every call with this cost function. *)
Definition step_returns (opt : Optimizer real OptState Env Err)
    (cf : QNode real Env Err) : Prop :=
  forall l w, exists p w', step opt (evaluate cf) l w = Ok p w'.

(** The cost function writes at most to the array it is given: objects
    that exist stay, and every other one keeps its values. *)
Definition callable_frame (cf : QNode real Env Err) : Prop :=
  forall l s o r s' o',
    qfunc cf l s o = (r, s', o') ->
    dom s ⊆ dom s' /\
    forall l0, l0 ∈ dom s -> l0 <> l -> s' !! l0 = s !! l0.

(** The optimizer step writes at most to the array it is given, and
    returns that array or one that did not exist before. *)
Definition step_frame (opt : Optimizer real OptState Env Err)
    (cf : QNode real Env Err) : Prop :=
  forall l w p w',
    l ∈ dom (store w) ->
    step opt (evaluate cf) l w = Ok p w' ->
    dom (store w) ⊆ dom (store w') /\
    p ∈ dom (store w') /\
    (p = l \/ p ∉ dom (store w)) /\
    forall l0, l0 ∈ dom (store w) -> l0 <> l -> store w' !! l0 = store w !! l0.

(** The optimizer step only adds to the log of evaluations. *)
Definition step_keeps_log (opt : Optimizer real OptState Env Err)
    (cf : QNode real Env Err) : Prop :=
  forall l w p w',
    step opt (evaluate cf) l w = Ok p w' ->
    (length (evals w) <= length (evals w'))%nat.

(** The optimizer step prints nothing. *)
Definition step_silent (opt : Optimizer real OptState Env Err)
    (cf : QNode real Env Err) : Prop :=
  forall l w p w',
    step opt (evaluate cf) l w = Ok p w' -> stdout w' = stdout w.

(** The optimizer step issues [q] evaluations at every call that returns. *)
Definition step_issues (q : nat) (opt : Optimizer real OptState Env Err)
    (cf : QNode real Env Err) : Prop :=
  forall l w p w',
    step opt (evaluate cf) l w = Ok p w' ->
    length (evals w') = (length (evals w) + q)%nat.

(** The optimizer step returns at every call, and the array it returns
    holds [g] of the values of the array it was given. *)
Definition step_computes (g : list real -> list real)
    (opt : Optimizer real OptState Env Err) (cf : QNode real Env Err) : Prop :=
  forall l w, exists p w',
    step opt (evaluate cf) l w = Ok p w' /\
    store w' !!! p = g (store w !!! l).

(** The status line that iteration [j] of the loop prints, if any, given
    the costs recorded by then. *)
Definition status_line (interval : Z) (execs_per_step : count)
    (costs : list real) (j : nat) : option (event real) :=
  if Z.of_nat j mod interval =? 0
  then Status (Z.of_nat j) (total execs_per_step j) <$> costs !! j
  else None.

(** The cost function writes to no array. *)
Definition callable_readonly (cf : QNode real Env Err) : Prop :=
  forall l s o r s' o', qfunc cf l s o = (r, s', o') -> s' = s.

(** On an array of [p] values the optimizer step returns, an array of [p]
    values again, after [q] evaluations. *)
Definition step_regular (p q : nat) (opt : Optimizer real OptState Env Err)
    (cf : QNode real Env Err) : Prop :=
  forall l w,
    length (store w !!! l) = p ->
    exists l' w',
      step opt (evaluate cf) l w = Ok l' w' /\
      length (store w' !!! l') = p /\
      length (evals w') = (length (evals w) + q)%nat.

(** Two worlds that differ at most in the lines printed. *)
Definition same_but_stdout (w1 w2 : World real OptState Env) : Prop :=
  store w1 = store w2 /\ opt_state w1 = opt_state w2 /\
  env w1 = env w2 /\ evals w1 = evals w2.

(** [performed opt cf m p w costs p' w']: from the parameters [p] in the
    world [w], [m] steps are performed one after the other, each a call of
    the step of the optimizer on the parameters the step before returned,
    followed by one evaluation of the cost function on the parameters it
    returns; [costs] are the values of these evaluations in order, and
    [p'] and [w'] the parameters and the world after the last.  Lines may
    be printed before each step. *)
Inductive performed (opt : Optimizer real OptState Env Err)
    (cf : QNode real Env Err)
    : nat -> loc -> World real OptState Env -> list real ->
      loc -> World real OptState Env -> Prop :=
| performed_none p w : performed opt cf 0 p w [] p w
| performed_step m p w w1 p1 w2 c w3 costs p' w' :
    same_but_stdout w w1 ->
    step opt (evaluate cf) p w1 = Ok p1 w2 ->
    evaluate cf p1 w2 = Ok c w3 ->
    performed opt cf m p1 w3 costs p' w' ->
    performed opt cf (S m) p w (c :: costs) p' w'.

(** Two worlds that differ at most in what is stored where and in the
    state behind the cost function. *)
Definition agree (w1 w2 : World real OptState Env) : Prop :=
  opt_state w1 = opt_state w2 /\ evals w1 = evals w2 /\ stdout w1 = stdout w2.

(** What a caller can observe of a call of [run_optimizer]: the
    exception if any, the histories, the log of evaluations and the
    printed lines. *)
Definition observation (r : RunOutcome real OptState Env Err)
    : option (exn Err) * list real * list count * list (list real)
      * list (event real) :=
  match r with
  | Returned ch eh w => (None, ch, eh, evals w, stdout w)
  | Aborted e st w => (Some e, cost_history st, exec_history st, evals w, stdout w)
  end.

End Contracts.

(** ** Test doubles *)

Section TestDoubles.

Context {real OptState Env Err : Type}.

(** A deterministic cost function: its value is a function of the values
    of its argument; it writes nothing and keeps no state. *)
Definition deterministic (f : list real -> real) : callable real Env Err :=
  fun l s o => (inr (f (s !!! l)), s, o).

(** A cost function that counts its calls and raises at call number [n]
    (and is [f] at every other call). *)
Definition raising_at (n : nat) (e : Err) (f : list real -> real)
    : callable real nat Err :=
  fun l s calls =>
    if (S calls =? n)%nat then (inl (Propagated e), s, S calls)
    else (inr (f (s !!! l)), s, S calls).

(** A cost function that holds a reference to the array at [target] and
    overwrites it with [v] at every call (and is [f] otherwise). *)
Definition overwriting (target : loc) (v : list real) (f : list real -> real)
    : callable real Env Err :=
  fun l s o => (inr (f (s !!! l)), <[target := v]> s, o).

(** An optimizer that evaluates nothing and returns its argument. *)
Definition IdleOptimizer : Optimizer real OptState Env Err :=
  mkOptimizer "IdleOptimizer" (fun _ l => ret l).

(** An optimizer that overwrites the array it is given and returns it. *)
Definition InPlaceOptimizer (g : list real -> list real)
    : Optimizer real OptState Env Err :=
  mkOptimizer "InPlaceOptimizer" (fun _ l w =>
    Ok l (mkWorld (<[l := g (store w !!! l)]> (store w))
                  (opt_state w) (env w) (evals w) (stdout w))).

End TestDoubles.

(** Exact rational arithmetic for the examples; the exponent of a power
    is rounded down to an integer. *)
#[export] Instance QOps : RealOps Q := {|
  of_Z := inject_Z;
  radd x y := Qred (Qplus x y);
  rsub x y := Qred (Qminus x y);
  rmul x y := Qred (Qmult x y);
  rdiv x y := Qred (Qdiv x y);
  rpow x y := Qred (Qpower x (Qfloor y));
  rltb x y := negb (Qle_bool y x)
|}.

(** A random source that replays a script of signs, then yields +1. *)
#[export] Instance Scripted : RandomSource (list bool) := {|
  next_sign g := match g with [] => (true, []) | b :: g' => (b, g') end
|}.

Module Demo.

(** [f(theta) = theta_0^2]. *)
Definition square_first (theta : list Q) : Q :=
  match theta with
  | x :: _ => Qred (Qmult x x)
  | [] => inject_Z 0
  end.

Definition aer : Device := mkDevice "qiskit.aer" 4 1000.

(** [c = 0.15], [a = 0.2], exponents 0 (no decay), no stability offset. *)
Definition options : SpsaOptions Q :=
  mkSpsaOptions 1 (Qmake 3 20) (Qmake 1 5) (inject_Z 0) (inject_Z 0) (inject_Z 0).

Definition cfg : SpsaConfig Q := mkSpsaConfig options eq_refl.

(** A world whose store holds the caller's parameters [[1.0]] at
    location 1. *)
Definition world {OptState Env : Type} (s : OptState) (o : Env)
    : World Q OptState Env :=
  mkWorld {[ 1%positive := [inject_Z 1] ]} s o [] [].

(** The same parameters at location 5, next to another array. *)
Definition other_world {OptState Env : Type} (s : OptState) (o : Env)
    : World Q OptState Env :=
  mkWorld {[ 5%positive := [inject_Z 1]; 2%positive := [inject_Z 7] ]} s o [] [].

Definition init_param : loc := 1%positive.

(** The deterministic cost function [f], on a device. *)
Definition cost_function {Env : Type} : QNode Q Env (CoreError unit) :=
  mkQNode aer (deterministic square_first).

(** [f] as a cost function that raises at its third call. *)
Definition failing_cost_function : QNode Q nat (CoreError unit) :=
  mkQNode aer (raising_at 3 (OracleError tt) square_first).

(** The SPSA optimizer with a source that draws +1, then -1. *)
Definition opt {Env : Type} : Optimizer Q (SpsaState (list bool)) Env (CoreError unit) :=
  SPSAOptimizer cfg.

Definition seed : SpsaState (list bool) := spsa_init [true; false].

(** The worlds the examples start from: the state of the SPSA optimizer
    and, behind the cost function, nothing or a counter of calls. *)
Definition spsa_world : World Q (SpsaState (list bool)) unit := world seed tt.

Definition counting_world : World Q (SpsaState (list bool)) nat :=
  world seed 0%nat.

Definition idle_world : World Q unit nat := world tt 0%nat.

(** The same initial parameters and the same seed in a world laid out
    differently. *)
Definition moved_world : World Q (SpsaState (list bool)) unit :=
  other_world seed tt.

End Demo.

(** More test doubles for the examples: optimizers on the worlds of
    [Demo], and a threshold on the costs. *)
Module Trial.

(** An update that halves every parameter. *)
Definition halve (theta : list Q) : list Q :=
  (fun x => Qred (Qdiv x (inject_Z 2))) <$> theta.

Definition halving
    : Optimizer Q (SpsaState (list bool)) unit (CoreError unit) :=
  InPlaceOptimizer halve.

Definition idle {Env : Type}
    : Optimizer Q (SpsaState (list bool)) Env (CoreError unit) :=
  IdleOptimizer.

(** [c < t]. *)
Definition below (t c : Q) : bool := negb (Qle_bool t c).

(** [f(theta) = theta_0^2 + theta_1^2 + ...]. *)
Definition sum_squares (theta : list Q) : Q :=
  foldr (fun x s => Qred (Qplus (Qmult x x) s)) (inject_Z 0) theta.

Definition sum_cost {Env : Type} : QNode Q Env (CoreError unit) :=
  mkQNode Demo.aer (deterministic sum_squares).

(** A world whose store holds the three parameters [[1; 2; 3]], and one
    with the six parameters of shape [(2, 1, 3)], at location 1. *)
Definition world3 : World Q (SpsaState (list bool)) unit :=
  mkWorld {[ 1%positive := [inject_Z 1; inject_Z 2; inject_Z 3] ]}
          Demo.seed tt [] [].

Definition world6 : World Q (SpsaState (list bool)) unit :=
  mkWorld {[ 1%positive := [inject_Z 1; inject_Z 2; inject_Z 3;
                            inject_Z 1; inject_Z 2; inject_Z 3] ]}
          Demo.seed tt [] [].

(** Gradient descent with [stepsize = 0.3], as at line 277, and the rule
    that shifts by 1 and halves the difference. *)
Definition gd_options : GdOptions Q := mkGdOptions (Qmake 3 10).

Definition gd_cfg : GdConfig Q := mkGdConfig gd_options eq_refl.

Definition rule : ShiftRule Q := mkShiftRule (inject_Z 1) (Qmake 1 2).

Definition gd {Env : Type}
    : Optimizer Q (SpsaState (list bool)) Env (CoreError unit) :=
  GradientDescentOptimizer gd_cfg rule.

(** A cost function that overwrites the caller's array at location 1. *)
Definition meddling_cost : QNode Q unit (CoreError unit) :=
  mkQNode Demo.aer (overwriting 1%positive [inject_Z 9] Demo.square_first).

End Trial.

(** * Properties *)

(** ** The run loop, for every optimizer and every cost function *)

Section RunLoopFacts.

Context {real OptState Env Err : Type}.

Implicit Types (opt : Optimizer real OptState Env Err).
Implicit Types (cf : QNode real Env Err).
Implicit Types (st : Locals real) (w : World real OptState Env).

(** One pass through the body of the loop, case by case. *)
Ltac loop_cases H :=
  cbn [loop] in H;
  repeat match type of H with
  | match ?x with _ => _ end = _ => let E := fresh "E" in destruct x eqn:E
  end;
  try discriminate H.

Lemma range_cons (n : Z) :
  0 < n -> range n = 0 :: (Z.of_nat <$> seq 1 (Z.to_nat n - 1)).
Proof.
  intros Hn. unfold range.
  destruct (Z.to_nat n) as [|m] eqn:E; [lia|].
  cbn. by rewrite Nat.sub_0_r.
Qed.

Lemma range_nonpos (n : Z) : n <= 0 -> range n = [].
Proof.
  intros Hn. unfold range. by replace (Z.to_nat n) with 0%nat by lia.
Qed.

(** A status check changes nothing but the printed lines. *)
Lemma status_check_ok i interval st w u w' :
  status_check (Err := Err) i interval st w = Ok u w' ->
  interval <> 0 /\ store w' = store w /\ opt_state w' = opt_state w /\
  env w' = env w /\ evals w' = evals w.
Proof.
  unfold status_check, print_status, print, raise, ret.
  destruct (interval =? 0) eqn:Ei; [discriminate|].
  apply Z.eqb_neq in Ei.
  destruct (i mod interval =? 0).
  - destruct (getitem _ _); [|discriminate].
    destruct (getitem _ _); [|discriminate].
    by intros [= <- <-].
  - by intros [= <- <-].
Qed.

Lemma wrap64_id (z : Z) : fits64 z -> wrap64 z = z.
Proof.
  unfold fits64, wrap64. intros Hz.
  rewrite Z.mod_small by lia. lia.
Qed.

(** While nothing overflows, entry [j] stands for [j * execs_per_step]. *)
Lemma total_value (n : Z) (eps : count) (j : nat) :
  no_overflow n eps -> Z.of_nat j <= n ->
  value (total eps j) = Z.of_nat j * value eps.
Proof.
  intros Hno Hj. destruct j as [|j]; [done|].
  unfold total. destruct eps as [z|z]; cbn [count_mul value]; [done|].
  apply wrap64_id. cbn in Hno. destruct Hno as (_ & Hz & Hnz); [lia|].
  unfold fits64 in *. nia.
Qed.

(** When the loop runs out of steps, each history has grown by one entry
    per step, and the entry added to [exec_history] at step [j] is
    [(j + 1) * execs_per_step]. *)
Lemma loop_exhausted opt cf interval eps m : forall i st w st' w',
  loop opt cf interval eps (Z.of_nat <$> seq i m) st w = Exhausted st' w' ->
  (exists tail, cost_history st' = cost_history st ++ tail /\ length tail = m) /\
  exec_history st' =
    exec_history st ++
    ((fun j => count_mul (PyInt (Z.of_nat j + 1)) eps) <$> seq i m).
Proof.
  induction m as [|m IH]; intros i st w st' w' H.
  - cbn in H. injection H as <- <-. split; [exists []|]; by rewrite app_nil_r.
  - cbn [seq fmap list_fmap] in H. loop_cases H.
    apply IH in H as [(tail & Hc & Hl) He]. cbn in Hc, He.
    split.
    + eexists. split; [by rewrite Hc, <- app_assoc|]. cbn. by rewrite Hl.
    + rewrite He, <- app_assoc. done.
Qed.

(** When an exception leaves the loop, both histories have grown by the
    same number of entries. *)
Lemma loop_broken opt cf interval eps steps : forall st w e st' w',
  loop opt cf interval eps steps st w = Broken e st' w' ->
  exists j, (j <= length steps)%nat /\
    length (cost_history st') = (length (cost_history st) + j)%nat /\
    length (exec_history st') = (length (exec_history st) + j)%nat.
Proof.
  induction steps as [|i rest IH]; intros st w e st' w' H.
  - discriminate.
  - loop_cases H.
    + apply IH in H as (j & Hj & Hc & He). cbn in Hc, He.
      rewrite length_app in Hc, He. cbn in Hc, He.
      exists (S j). cbn. lia.
    + injection H as <- <- <-. exists 0%nat. cbn. lia.
    + injection H as <- <- <-. exists 0%nat. cbn. lia.
    + injection H as <- <- <-. exists 0%nat. cbn. lia.
Qed.

Lemma getitem_last {A : Type} (l : list A) (x : A) :
  getitem (l ++ [x]) (-1) = Some x.
Proof.
  unfold getitem. cbn. rewrite length_app. cbn.
  destruct (_ <=? _) eqn:E; [|apply Z.leb_gt in E; lia].
  rewrite lookup_app_r by lia.
  by replace (length l + 1 - Z.to_nat (- (-1)) - length l)%nat with 0%nat by lia.
Qed.

Lemma scaled_steps (eps : count) (m : nat) :
  PyInt 0 :: ((fun j => count_mul (PyInt (Z.of_nat j + 1)) eps) <$> seq 0 m) =
  total eps <$> seq 0 (S m).
Proof.
  cbn [seq fmap list_fmap total]. f_equal.
  rewrite <- fmap_S_seq, <- list_fmap_compose.
  apply list_fmap_ext. intros _ j _. cbn [compose total]. do 2 f_equal. lia.
Qed.

(** The shape of a call that returns: the first cost is the one of the
    copy of the initial parameters, one cost follows per step, and entry
    [j] of [exec_history] is [j * execs_per_step], in the integer type of
    [execs_per_step]. *)
Lemma run_optimizer_returned opt cf init n interval eps w ch eh w' :
  run_optimizer opt cf init n interval eps w = Returned ch eh w' ->
  exists c0 w1 tail,
    evaluate cf (copy init w).1 (copy init w).2 = Ok c0 w1 /\
    ch = c0 :: tail /\ length tail = Z.to_nat n /\
    eh = total eps <$> seq 0 (S (Z.to_nat n)).
Proof.
  unfold run_optimizer. destruct (copy init w) as [p w0] eqn:Ec. cbn [fst snd].
  destruct (evaluate cf p w0) as [c0 w1|] eqn:Ee; [|discriminate].
  cbn [print]. unfold range.
  destruct (loop _ _ _ _ _ _ _) as [st w3|] eqn:El; [|discriminate].
  apply loop_exhausted in El as [(tail & Hc & Hl) He]. cbn in Hc, He.
  destruct (print_status _ _ _ _); [|discriminate].
  intros [= <- <- <-]. exists c0, w1, tail. repeat split; try done.
  rewrite He. apply scaled_steps.
Qed.

(** When an exception leaves the call, the two histories have the same
    number of entries: no step is recorded in one and not in the other. *)
Lemma aborted_histories_aligned opt cf init n interval eps w e st w' :
  run_optimizer opt cf init n interval eps w = Aborted e st w' ->
  length (cost_history st) = length (exec_history st).
Proof.
  unfold run_optimizer. destruct (copy init w) as [p w0].
  destruct (evaluate cf p w0) as [c0 w1|]; [|by intros [= <- <- <-]].
  cbn [print].
  destruct (loop _ _ _ _ _ _ _) as [st1 w3|e1 st1 w3] eqn:El.
  - apply loop_exhausted in El as [(tail & Hc & Hl) He]. cbn in Hc, He.
    destruct (print_status _ _ _ _); [discriminate|].
    intros [= <- <- <-]. rewrite Hc, He. cbn.
    by rewrite length_fmap, length_seq, Hl.
  - apply loop_broken in El as (j & _ & Hc & He). cbn in Hc, He.
    intros [= <- <- <-]. lia.
Qed.

Lemma getitem_nat {A : Type} (l : list A) (i : nat) :
  (i < length l)%nat -> is_Some (getitem l (Z.of_nat i)).
Proof.
  intros Hi. unfold getitem.
  destruct (0 <=? Z.of_nat i) eqn:E; [|apply Z.leb_gt in E; lia].
  rewrite Nat2Z.id. by apply lookup_lt_is_Some.
Qed.

Lemma getitem_minus_one {A : Type} (l : list A) :
  l <> [] -> is_Some (getitem l (-1)).
Proof.
  intros Hl. destruct (exists_last Hl) as (l' & x & ->).
  rewrite getitem_last. eauto.
Qed.

Lemma evaluate_ok cf l w y w' :
  evaluate cf l w = Ok y w' ->
  evals w' = evals w ++ [store w !!! l] /\
  opt_state w' = opt_state w /\ stdout w' = stdout w /\
  qfunc cf l (store w) (env w) = (inr y, store w', env w').
Proof.
  unfold evaluate. destruct (qfunc cf l _ _) as [[[e|y'] s] o]; [discriminate|].
  by intros [= <- <-].
Qed.

Lemma evaluate_total cf l w :
  never_raises cf -> exists y w', evaluate cf l w = Ok y w'.
Proof.
  intros Hcf. destruct (Hcf l (store w) (env w)) as (y & s' & o' & E).
  unfold evaluate. rewrite E. eauto.
Qed.

Lemma status_check_returns (i : nat) interval st w :
  interval <> 0 ->
  (i < length (exec_history st))%nat -> (i < length (cost_history st))%nat ->
  exists w1,
    status_check (Err := Err) (Z.of_nat i) interval st w = Ok tt w1 /\
    store w1 = store w /\ opt_state w1 = opt_state w /\
    env w1 = env w /\ evals w1 = evals w.
Proof.
  intros Hi He Hc.
  assert (exists w1, status_check (Err := Err) (Z.of_nat i) interval st w
                     = Ok tt w1) as [w1 E].
  { unfold status_check. apply Z.eqb_neq in Hi. rewrite Hi.
    destruct (Z.of_nat i mod interval =? 0); [|unfold ret; by eexists].
    unfold print_status.
    destruct (getitem_nat (exec_history st) i) as [x ->]; [lia|].
    destruct (getitem_nat (cost_history st) i) as [y ->]; [lia|].
    unfold print. by eexists. }
  exists w1. split; [done|].
  by apply status_check_ok in E as (_ & ? & ? & ? & ?).
Qed.

(** With a status interval other than zero, a cost function and an
    optimizer that return at every call, the loop runs out of steps. *)
Lemma loop_completes opt cf interval eps m :
  interval <> 0 -> never_raises cf -> step_returns opt cf ->
  forall i st w,
    length (cost_history st) = S i -> length (exec_history st) = S i ->
    exists st' w',
      loop opt cf interval eps (Z.of_nat <$> seq i m) st w = Exhausted st' w'.
Proof.
  intros Hi Hcf Hopt. induction m as [|m IH]; intros i st w Hc He.
  - cbn. eauto.
  - cbn [seq fmap list_fmap loop].
    destruct (status_check_returns i interval st w Hi) as (w1 & -> & _);
      [lia..|].
    destruct (Hopt (param st) w1) as (p & w2 & ->).
    destruct (evaluate_total cf p w2 Hcf) as (y & w3 & ->).
    apply IH; cbn; rewrite length_app; cbn; lia.
Qed.

(** X5: with a status interval other than zero, a cost function and an
    optimizer that return at every call, [run_optimizer] returns, for
    every [num_steps], negative ones included: none of its own steps, the
    indexing of the histories among them, fails. *)
Lemma run_optimizer_returns opt cf init n interval eps w :
  interval <> 0 -> never_raises cf -> step_returns opt cf ->
  exists ch eh w', run_optimizer opt cf init n interval eps w = Returned ch eh w'.
Proof.
  intros Hi Hcf Hopt. unfold run_optimizer.
  destruct (copy init w) as [p w0].
  destruct (evaluate_total cf p w0 Hcf) as (c0 & w1 & ->).
  cbn [print]. unfold range.
  match goal with
  | |- context [loop _ _ _ _ _ ?st1 ?w2] =>
      destruct (loop_completes opt cf interval eps (Z.to_nat n)
                  Hi Hcf Hopt 0%nat st1 w2) as (st & w3 & El); [done..|]
  end.
  rewrite El.
  apply loop_exhausted in El as [(tail & Hc & _) He]. cbn in Hc, He.
  unfold print_status.
  destruct (getitem_minus_one (exec_history st)) as [x ->].
  { rewrite He. done. }
  destruct (getitem_minus_one (cost_history st)) as [y ->].
  { rewrite Hc. done. }
  cbn. eauto.
Qed.

(** An optimizer that keeps the log leaves in it, after [m] steps, the
    [m] evaluations of the run loop at least. *)
Lemma loop_exhausted_evals opt cf interval eps m :
  step_keeps_log opt cf ->
  forall i st w st' w',
    loop opt cf interval eps (Z.of_nat <$> seq i m) st w = Exhausted st' w' ->
    (length (evals w) + m <= length (evals w'))%nat.
Proof.
  intros Hlog. induction m as [|m IH]; intros i st w st' w' H.
  - cbn in H. injection H as <- <-. lia.
  - cbn [seq fmap list_fmap] in H. loop_cases H.
    apply IH in H.
    match goal with
    | E : status_check _ _ _ _ = Ok _ _ |- _ =>
        apply status_check_ok in E as (_ & _ & _ & _ & Hs)
    end.
    match goal with
    | E : step _ _ _ _ = Ok _ _ |- _ => apply Hlog in E
    end.
    match goal with
    | E : evaluate _ _ _ = Ok _ _ |- _ => apply evaluate_ok in E as (He & _)
    end.
    rewrite He, length_app in H. cbn in H. rewrite Hs in *. lia.
Qed.

Lemma alloc_spec (v : list real) w :
  ((alloc v w).1 ∉ dom (store w)) /\
  store (alloc v w).2 = <[(alloc v w).1 := v]> (store w).
Proof. unfold alloc. cbn. split; [apply is_fresh|done]. Qed.

Lemma alloc_lookup (v : list real) w :
  store (alloc v w).2 !!! (alloc v w).1 = v /\
  forall l, l ∈ dom (store w) -> store (alloc v w).2 !!! l = store w !!! l.
Proof.
  unfold alloc. cbn. split; [by rewrite lookup_total_insert_eq|].
  intros l Hl. rewrite lookup_total_insert_ne; [done|].
  intros <-. by apply is_fresh in Hl.
Qed.

Lemma copy_values init w :
  store (copy init w).2 !!! (copy init w).1 = store w !!! init.
Proof. unfold copy, alloc. cbn. by rewrite lookup_total_insert_eq. Qed.

(** The steps the loop performs when it runs out of steps, and the costs
    it records. *)
Lemma loop_performed opt cf interval eps steps : forall st w st' w',
  loop opt cf interval eps steps st w = Exhausted st' w' ->
  exists costs,
    performed opt cf (length steps) (param st) w costs (param st') w' /\
    cost_history st' = cost_history st ++ costs.
Proof.
  induction steps as [|i rest IH]; intros st w st' w' H.
  - cbn in H. injection H as <- <-. exists []. split; [constructor|].
    by rewrite app_nil_r.
  - cbn [loop] in H.
    destruct (status_check i interval st w) as [u w1|] eqn:E1; [|discriminate].
    destruct (step opt (evaluate cf) (param st) w1) as [p1 w2|] eqn:E2;
      [|discriminate].
    destruct (evaluate cf p1 w2) as [c w3|] eqn:E3; [|discriminate].
    apply IH in H as (costs & Hp & Hc). cbn in Hp, Hc.
    apply status_check_ok in E1 as (_ & Hs & Ho & He & Hv).
    exists (c :: costs). split.
    + cbn [length]. eapply performed_step; [|exact E2|exact E3|exact Hp].
      by repeat split.
    + by rewrite Hc, <- app_assoc.
Qed.

(** C2: a call of [run_optimizer] with [num_steps >= 0] that returns
    yields histories of [num_steps + 1] entries each.  The first cost is
    that of the initial parameters, evaluated on their copy before any
    step, and goes with the count 0; then [num_steps] steps are performed,
    each a call of the step of the optimizer on the parameters of the step
    before followed by one evaluation of the cost function on the new
    parameters, and the costs that follow the first are the values of
    these evaluations, one per step and in order. *)
Theorem history_lengths opt cf init n interval eps w ch eh w' :
  0 <= n ->
  run_optimizer opt cf init n interval eps w = Returned ch eh w' ->
  Z.of_nat (length ch) = n + 1 /\
  Z.of_nat (length eh) = n + 1 /\
  eh !! 0%nat = Some (PyInt 0) /\
  exists c0 w1 w2 costs p' wf,
    evaluate cf (copy init w).1 (copy init w).2 = Ok c0 w1 /\
    store (copy init w).2 !!! (copy init w).1 = store w !!! init /\
    same_but_stdout w1 w2 /\
    performed opt cf (Z.to_nat n) (copy init w).1 w2 costs p' wf /\
    same_but_stdout wf w' /\
    ch = c0 :: costs /\
    eh = total eps <$> seq 0 (S (Z.to_nat n)).
Proof.
  intros Hn H.
  pose proof (run_optimizer_returned _ _ _ _ _ _ _ _ _ _ H)
    as (c0' & w1' & tail & _ & Hch & Hl & Heh).
  split; [rewrite Hch; cbn [length]; lia|].
  split; [rewrite Heh, length_fmap, length_seq; lia|].
  split; [by rewrite Heh|].
  revert H. unfold run_optimizer.
  pose proof (copy_values init w) as Hv.
  destruct (copy init w) as [p w0]. cbn [fst snd] in *.
  destruct (evaluate cf p w0) as [c0 w1|] eqn:Ee; [|discriminate].
  cbn [print].
  destruct (loop _ _ _ _ _ _ _) as [st w3|] eqn:El; [|discriminate].
  apply loop_performed in El as (costs & Hp & Hc). cbn in Hp, Hc.
  unfold range in Hp. rewrite length_fmap, length_seq in Hp.
  unfold print_status, print, raise.
  destruct (getitem _ _); [|discriminate].
  destruct (getitem _ _); [|discriminate].
  intros [= <- <- <-].
  do 6 eexists. split; [done|]. split; [done|].
  split; [|split; [exact Hp|]]; [by repeat split|].
  split; [by repeat split|]. split; [by rewrite Hc|done].
Qed.

Lemma exec_history_step opt cf init n interval eps w ch eh w' :
  run_optimizer opt cf init n interval eps w = Returned ch eh w' ->
  no_overflow n eps ->
  forall j x y,
    eh !! j = Some x -> eh !! S j = Some y -> value y = value x + value eps.
Proof.
  intros H Hno j x y Hx Hy.
  apply run_optimizer_returned in H as (_ & _ & _ & _ & _ & _ & ->).
  rewrite list_lookup_fmap in Hx, Hy.
  apply fmap_Some in Hx as (jx & Hjx & ->).
  apply fmap_Some in Hy as (jy & Hjy & ->).
  apply lookup_seq in Hjx as [-> Hlt]. apply lookup_seq in Hjy as [-> Hlt'].
  cbn [Nat.add] in *.
  rewrite (total_value n), (total_value n) by (done || lia). lia.
Qed.

(** C3, as the code has it: in a call that returns, and as long as the
    totals do not overflow the integer type of [execs_per_step] (a Python
    integer never does, a [numpy.int64] wraps at 64 bits), each entry of
    [exec_history] is the one before it plus [execs_per_step]; so the
    history does not decrease when [execs_per_step >= 0] and increases at
    every step when [execs_per_step > 0]. *)
Theorem exec_history_increments opt cf init n interval eps w ch eh w' :
  run_optimizer opt cf init n interval eps w = Returned ch eh w' ->
  no_overflow n eps ->
  forall j x y,
    eh !! j = Some x -> eh !! S j = Some y ->
    value y = value x + value eps /\
    (0 <= value eps -> value x <= value y) /\
    (0 < value eps -> value x < value y).
Proof.
  intros H Hno j x y Hx Hy.
  pose proof (exec_history_step _ _ _ _ _ _ _ _ _ _ H Hno j x y Hx Hy). lia.
Qed.

(** C5, as the code has it: in a call that returns, entry [j] of
    [exec_history] is [j * execs_per_step], the declared cost of the
    steps and nothing else (as long as the totals do not overflow the
    integer type of [execs_per_step]); the evaluations the run loop issues
    itself, one before the first step and one after each step, are in the
    log of evaluations but in no recorded total. *)
Theorem monitoring_not_counted opt cf init n interval eps w ch eh w' :
  0 <= n ->
  step_keeps_log opt cf ->
  no_overflow n eps ->
  run_optimizer opt cf init n interval eps w = Returned ch eh w' ->
  (forall j : nat,
     Z.of_nat j <= n -> value <$> eh !! j = Some (Z.of_nat j * value eps)) /\
  Z.of_nat (length (evals w)) + n + 1 <= Z.of_nat (length (evals w')).
Proof.
  intros Hn Hlog Hno H. split.
  - intros j Hj.
    apply run_optimizer_returned in H as (_ & _ & _ & _ & _ & _ & ->).
    rewrite list_lookup_fmap, lookup_seq_lt by lia. cbn.
    by rewrite (total_value n).
  - revert H. unfold run_optimizer.
    destruct (copy init w) as [p w0] eqn:Ec.
    assert (evals w0 = evals w) as <-.
    { unfold copy, alloc in Ec. by injection Ec as <- <-. }
    destruct (evaluate cf p w0) as [c0 w1|] eqn:Ee; [|discriminate].
    apply evaluate_ok in Ee as (Hev & _).
    cbn [print]. unfold range.
    destruct (loop _ _ _ _ _ _ _) as [st w3|] eqn:El; [|discriminate].
    apply (loop_exhausted_evals _ _ _ _ _ Hlog) in El. cbn in El.
    rewrite Hev, length_app in El. cbn in El.
    unfold print_status.
    destruct (getitem _ _); [|discriminate].
    destruct (getitem _ _); [|discriminate].
    intros [= <- <- <-]. cbn. lia.
Qed.

(** With [num_steps < 0] the call performs no step and returns the
    histories of one entry each, whatever the optimizer and the
    interval. *)
Lemma negative_num_steps_returned opt cf init n interval eps w c0 w1 :
  n < 0 ->
  evaluate cf (copy init w).1 (copy init w).2 = Ok c0 w1 ->
  exists w',
    run_optimizer opt cf init n interval eps w
    = Returned [c0] [PyInt 0] w' /\
    store w' = store w1 /\ opt_state w' = opt_state w1 /\
    env w' = env w1 /\ evals w' = evals w1.
Proof.
  intros Hn He. unfold run_optimizer.
  destruct (copy init w) as [p w0]. cbn [fst snd] in He. rewrite He.
  rewrite range_nonpos by lia. cbn. eauto 10.
Qed.

(** C10: with [num_steps >= 1] and [interval = 0], once the initial cost
    is evaluated and the banner printed, the status check of the first
    iteration raises [ZeroDivisionError]; the optimizer is not called
    (the outcome is the same for every optimizer), and the histories hold
    their initial entry only. *)
Theorem zero_interval_raises opt cf init n eps w c0 w1 :
  1 <= n ->
  evaluate cf (copy init w).1 (copy init w).2 = Ok c0 w1 ->
  run_optimizer opt cf init n 0 eps w =
    Aborted ZeroDivisionError
      (mkLocals (copy init w).1 (device cf) [c0] [PyInt 0])
      (mkWorld (store w1) (opt_state w1) (env w1) (evals w1)
               (stdout w1 ++ [Banner (class_name opt) n])).
Proof.
  intros Hn He. unfold run_optimizer.
  destruct (copy init w) as [p w0]. cbn [fst snd] in He |- *. rewrite He.
  rewrite range_cons by lia. reflexivity.
Qed.

(** The copy is an object of its own. *)
Lemma copy_fresh init w :
  ((copy init w).1 ∉ dom (store w)) /\
  store (copy init w).2 = <[(copy init w).1 := store w !!! init]> (store w).
Proof. apply alloc_spec. Qed.

(** As long as the loop works on an object other than the caller's, the
    caller's object keeps its values. *)
Lemma loop_frame opt cf interval eps init steps :
  callable_frame cf -> step_frame opt cf ->
  forall st w st' w',
    init ∈ dom (store w) -> param st ∈ dom (store w) -> param st <> init ->
    loop opt cf interval eps steps st w = Exhausted st' w' ->
    store w' !! init = store w !! init.
Proof.
  intros Hcf Hopt. induction steps as [|i rest IH]; intros st w st' w' Hi Hp Hne H.
  - cbn in H. by injection H as <- <-.
  - loop_cases H.
    match goal with
    | E : status_check _ _ _ _ = Ok _ _ |- _ =>
        apply status_check_ok in E as (_ & Hs & _)
    end.
    match goal with
    | E : step _ _ _ _ = Ok ?p ?w2 |- _ =>
        apply Hopt in E as (Hd2 & Hp2 & Hfresh & Hf2); [|by rewrite Hs]
    end.
    match goal with
    | E : evaluate _ _ _ = Ok _ _ |- _ =>
        apply evaluate_ok in E as (_ & _ & _ & E); apply Hcf in E as (Hd3 & Hf3)
    end.
    rewrite Hs in *.
    match type of H with
    | loop _ _ _ _ _ (append_execs _ (append_cost _ (set_param ?p _))) _ = _ =>
        assert (p <> init) as Hne2
          by (destruct Hfresh as [->|Hnew]; [done|]; by intros ->)
    end.
    clear Hfresh.
    apply IH in H; cbn; [|set_solver..|done].
    rewrite H, Hf3, Hf2; [done..|set_solver|done].
Qed.


End RunLoopFacts.

(** ** Optimizers that keep the number of parameters *)

Section RegularSteps.

Context {real OptState Env Err : Type}.

Implicit Types (opt : Optimizer real OptState Env Err).
Implicit Types (cf : QNode real Env Err).
Implicit Types (st : Locals real) (w : World real OptState Env).

(** A cost function that returns and writes nothing: what a call does. *)
Lemma evaluate_readonly cf l w :
  never_raises cf -> callable_readonly cf ->
  exists y o',
    evaluate cf l w =
    Ok y (mkWorld (store w) (opt_state w) o'
                  (evals w ++ [store w !!! l]) (stdout w)).
Proof.
  intros Hnr Hro. destruct (Hnr l (store w) (env w)) as (y & s' & o' & E).
  pose proof (Hro _ _ _ _ _ _ E) as ->.
  unfold evaluate. rewrite E. eauto.
Qed.

Lemma loop_regular opt cf interval eps p q m :
  interval <> 0 -> never_raises cf -> callable_readonly cf ->
  step_regular p q opt cf ->
  forall i st w,
    length (store w !!! param st) = p ->
    length (cost_history st) = S i -> length (exec_history st) = S i ->
    exists st' w',
      loop opt cf interval eps (Z.of_nat <$> seq i m) st w = Exhausted st' w' /\
      length (evals w') = (length (evals w) + (q + 1) * m)%nat.
Proof.
  intros Hi Hnr Hro Hreg. induction m as [|m IH]; intros i st w Hp Hc He.
  - cbn. do 2 eexists. split; [done|]. lia.
  - cbn [seq fmap list_fmap loop].
    destruct (status_check_returns (Err := Err) i interval st w Hi)
      as (w1 & -> & Hs1 & _ & _ & Hv1); [lia..|].
    destruct (Hreg (param st) w1) as (p1 & w2 & -> & Hp2 & Hv2);
      [by rewrite Hs1|].
    destruct (evaluate_readonly cf p1 w2 Hnr Hro) as (y & o' & ->).
    edestruct IH as (st' & w' & -> & Hv); cycle 3.
    + do 2 eexists. split; [done|]. rewrite Hv. cbn.
      rewrite length_app, Hv2, Hv1. cbn. lia.
    + done.
    + cbn. rewrite length_app. cbn. lia.
    + cbn. rewrite length_app. cbn. lia.
Qed.

(** With a cost function that returns and writes nothing and an optimizer
    that keeps the number [p] of parameters and issues [q] evaluations per
    step, the call returns after [(q + 1) * num_steps + 1] evaluations. *)
Lemma run_regular opt cf init n interval eps p q w :
  interval <> 0 -> never_raises cf -> callable_readonly cf ->
  step_regular p q opt cf ->
  length (store w !!! init) = p ->
  exists ch eh w',
    run_optimizer opt cf init n interval eps w = Returned ch eh w' /\
    length (evals w') = (length (evals w) + (q + 1) * Z.to_nat n + 1)%nat.
Proof.
  intros Hi Hnr Hro Hreg Hp. unfold run_optimizer.
  pose proof (copy_values init w) as Hv.
  destruct (copy init w) as [l w0] eqn:Ec. cbn [fst snd] in Hv.
  assert (evals w0 = evals w) as Hev0.
  { unfold copy, alloc in Ec. by injection Ec as <- <-. }
  destruct (evaluate_readonly cf l w0 Hnr Hro) as (y & o' & ->).
  cbn [print store opt_state env evals stdout]. unfold range.
  match goal with
  | |- context [loop _ _ _ _ _ ?st1 ?w2] =>
      destruct (loop_regular opt cf interval eps p q (Z.to_nat n)
                  Hi Hnr Hro Hreg 0%nat st1 w2)
        as (st' & w' & El & Hcount); [by rewrite <- Hp, <- Hv|done..|]
  end.
  rewrite El. apply loop_exhausted in El as [(tail & Hc & _) He].
  cbn in Hc, He, Hcount.
  unfold print_status.
  destruct (getitem_minus_one (exec_history st')) as [x ->]; [by rewrite He|].
  destruct (getitem_minus_one (cost_history st')) as [c ->]; [by rewrite Hc|].
  cbn. do 3 eexists. split; [done|]. cbn.
  rewrite Hcount, length_app, Hev0. cbn. lia.
Qed.

End RegularSteps.

(** ** The SPSA step *)

Section SpsaFacts.

Context {real G Env X : Type} {ops : RealOps real} {src : RandomSource G}.

Implicit Types (cfg : SpsaConfig real).
Implicit Types (cf : QNode real Env (CoreError X)).
Implicit Types (w : World real (SpsaState G) Env).

Lemma draw_length (p : nat) : forall g : G, length (draw p g).1 = p.
Proof.
  induction p as [|p IH]; intros g; [done|].
  cbn. destruct (next_sign g) as [b g1]. specialize (IH g1).
  destruct (draw p g1) as [bs g2]. cbn in *. by rewrite IH.
Qed.

(** The step, with its effects written out. *)
Lemma spsa_step_eq cfg
    (objective : loc -> M real (SpsaState G) Env (CoreError X) real) l w :
  spsa_step cfg objective l w =
  match store w !!! l with
  | [] => Raise (Propagated ConfigurationError) w
  | t :: ts =>
      let theta := t :: ts in
      let st := opt_state w in
      let dg := draw (length theta) (rng st) in
      let w0 := mkWorld (store w) (mkSpsaState (k st) dg.2)
                        (env w) (evals w) (stdout w) in
      let plus := alloc (shifted radd (c_k cfg (k st)) theta dg.1) w0 in
      let minus := alloc (shifted rsub (c_k cfg (k st)) theta dg.1) plus.2 in
      match objective plus.1 minus.2 with
      | Raise e w3 => Raise e w3
      | Ok y_plus w3 =>
          match objective minus.1 w3 with
          | Raise e w4 => Raise e w4
          | Ok y_minus w4 =>
              let g_scale :=
                rdiv (rsub y_plus y_minus) (rmul (of_Z 2) (c_k cfg (k st))) in
              let new := alloc (updated (a_k cfg (k st)) g_scale theta dg.1) w4 in
              Ok new.1
                 (mkWorld (store new.2)
                    (mkSpsaState (k (opt_state new.2) + 1) (rng (opt_state new.2)))
                    (env new.2) (evals new.2) (stdout new.2))
          end
      end
  end.
Proof.
  unfold spsa_step, bind, read. destruct (store w !!! l) as [|t ts]; [done|].
  unfold get_opt_state. cbn [opt_state].
  destruct (draw (length (t :: ts)) (rng (opt_state w))) as [delta g].
  unfold put_opt_state, new_array, alloc, ret. cbn.
  destruct (objective _ _) as [y_plus w3|]; [|done].
  destruct (objective _ _) as [y_minus w4|]; done.
Qed.

(** With a cost function that returns and writes nothing, the step
    evaluates at [theta + c_k * Delta] and [theta - c_k * Delta], for one
    draw of [Delta], and returns a new vector of the same length. *)
Lemma spsa_step_readonly cfg cf l w :
  never_raises cf -> callable_readonly cf ->
  store w !!! l <> [] ->
  let theta := store w !!! l in
  let st := opt_state w in
  let delta := (draw (length theta) (rng st)).1 in
  exists p w',
    spsa_step cfg (evaluate cf) l w = Ok p w' /\
    evals w' = evals w ++ [shifted radd (c_k cfg (k st)) theta delta;
                           shifted rsub (c_k cfg (k st)) theta delta] /\
    length (store w' !!! p) = length theta /\
    k (opt_state w') = k st + 1.
Proof.
  intros Hnr Hro Hp. cbn zeta. rewrite spsa_step_eq.
  destruct (store w !!! l) as [|t ts] eqn:Et; [done|]. cbn zeta.
  set (w0 := mkWorld (store w) _ (env w) (evals w) (stdout w)).
  set (tp := shifted radd _ _ _). set (tm := shifted rsub _ _ _).
  destruct (alloc_lookup tp w0) as [Hlp _].
  destruct (alloc_lookup tm (alloc tp w0).2) as [Hlm Hlpm].
  destruct (evaluate_readonly cf (alloc tp w0).1 (alloc tm (alloc tp w0).2).2
              Hnr Hro) as (y1 & o1 & ->).
  match goal with
  | |- context [evaluate cf ?lm ?w3] =>
      destruct (evaluate_readonly cf lm w3 Hnr Hro) as (y2 & o2 & ->)
  end.
  cbn [store opt_state env evals stdout].
  rewrite Hlm, Hlpm, Hlp.
  2:{ unfold alloc. cbn. rewrite dom_insert_L. set_solver. }
  do 2 eexists. split; [done|]. cbn [store opt_state evals stdout env].
  split; [by rewrite <- app_assoc|]. split; [|done].
  match goal with
  | |- context [alloc ?v ?w4] => destruct (alloc_lookup v w4) as [-> _]
  end.
  unfold updated. rewrite length_zip_with, draw_length. lia.
Qed.

(** The step of SPSA on [p >= 1] parameters: two evaluations, and [p]
    parameters again. *)
Lemma spsa_regular cfg cf (p : nat) :
  never_raises cf -> callable_readonly cf -> p <> 0%nat ->
  step_regular p 2 (SPSAOptimizer (G := G) cfg) cf.
Proof.
  intros Hnr Hro Hp l w Hl.
  destruct (spsa_step_readonly cfg cf l w Hnr Hro)
    as (l' & w' & E & Hev & Hlen & _).
  { intros E. rewrite E in Hl. cbn in Hl. lia. }
  exists l', w'. split; [exact E|]. split; [lia|].
  rewrite Hev, length_app. cbn. lia.
Qed.


(** The step of SPSA only adds to the log of evaluations. *)
Lemma spsa_keeps_log cfg cf : step_keeps_log (SPSAOptimizer (G := G) cfg) cf.
Proof.
  intros l w p w' H. cbn [step SPSAOptimizer] in H. rewrite spsa_step_eq in H.
  destruct (store w !!! l) as [|t ts]; [discriminate|]. cbn zeta in H.
  destruct (evaluate cf _ _) as [y1 w3|] eqn:E1; [|discriminate].
  destruct (evaluate cf _ w3) as [y2 w4|] eqn:E2; [|discriminate].
  apply evaluate_ok in E1 as (Hev1 & _). apply evaluate_ok in E2 as (Hev2 & _).
  injection H as <- <-. cbn in *. rewrite Hev2, Hev1, !length_app. lia.
Qed.

(** The step of SPSA writes to arrays of its own only, and returns a new
    one. *)
Lemma spsa_step_frame cfg cf :
  callable_frame cf -> step_frame (SPSAOptimizer (G := G) cfg) cf.
Proof.
  intros Hcf l w p w' Hl H. cbn [step SPSAOptimizer] in H.
  rewrite spsa_step_eq in H.
  destruct (store w !!! l) as [|t ts]; [discriminate|]. cbn zeta in H.
  set (w0 := mkWorld (store w) _ (env w) (evals w) (stdout w)) in H.
  set (tp := shifted radd _ _ _) in H. set (tm := shifted rsub _ _ _) in H.
  destruct (alloc_spec tp w0) as [Hp1 Hp2].
  destruct (alloc_spec tm (alloc tp w0).2) as [Hm1 Hm2].
  destruct (evaluate cf _ _) as [y1 w3|] eqn:E1; [|discriminate].
  destruct (evaluate cf _ w3) as [y2 w4|] eqn:E2; [|discriminate].
  apply evaluate_ok in E1 as (_ & _ & _ & E1). apply Hcf in E1 as [Hd3 Hf3].
  apply evaluate_ok in E2 as (_ & _ & _ & E2). apply Hcf in E2 as [Hd4 Hf4].
  match type of H with
  | context [alloc ?v w4] =>
      destruct (alloc_spec v w4) as [Hn1 Hn2];
      destruct (alloc v w4) as [new w5]
  end.
  cbn [fst snd] in H, Hn1, Hn2.
  injection H as <- <-. cbn [store].
  change (store w0) with (store w) in *.
  rewrite Hm2, Hp2 in Hd3. rewrite Hp2 in Hm1.
  assert (dom (store w) ⊆ dom (store w4)) as Hsub.
  { etrans; [|exact Hd4]. etrans; [|exact Hd3].
    rewrite !dom_insert_L. set_solver. }
  repeat split.
  - rewrite Hn2, dom_insert_L. set_solver.
  - rewrite Hn2, dom_insert_L. set_solver.
  - right. set_solver.
  - intros l0 Hl0 _.
    assert (l0 <> (alloc tp w0).1) as Hne1 by (intros ->; done).
    assert (l0 <> (alloc tm (alloc tp w0).2).1) as Hne2.
    { intros ->. apply Hm1. rewrite dom_insert_L. set_solver. }
    assert (l0 <> new) as Hne3 by (intros ->; apply Hn1; set_solver).
    rewrite Hn2, lookup_insert_ne by done.
    rewrite Hf4; [|apply Hd3; rewrite !dom_insert_L; set_solver|done].
    rewrite Hf3; [|rewrite Hm2, Hp2, !dom_insert_L; set_solver|done].
    rewrite Hm2, Hp2, !lookup_insert_ne by done. done.
Qed.

End SpsaFacts.

(** ** A cost function that fails at its third call *)

Section FailingOracle.

Context {real G X : Type} {ops : RealOps real} {src : RandomSource G}.

Implicit Types (cfg : SpsaConfig real) (f : list real -> real).
Implicit Types (e : CoreError X).

Lemma evaluate_raising_at {OptState : Type} d (n : nat) e f l
    (w : World real OptState nat) :
  evaluate (mkQNode d (raising_at n e f)) l w =
  let w' := mkWorld (store w) (opt_state w) (S (env w))
                    (evals w ++ [store w !!! l]) (stdout w) in
  if (S (env w) =? n)%nat then Raise (Propagated e) w'
  else Ok (f (store w !!! l)) w'.
Proof.
  unfold evaluate, raising_at. cbn [qfunc].
  by destruct (Nat.eqb (S (env w)) n).
Qed.

(** After one call of the cost function, the second evaluation of a step
    of SPSA is the third call. *)
Lemma spsa_step_second_call_raises cfg d e f l
    (w : World real (SpsaState G) nat) :
  store w !!! l <> [] -> env w = 1%nat ->
  exists w',
    spsa_step cfg (evaluate (mkQNode d (raising_at 3 e f))) l w
    = Raise (Propagated e) w' /\
    env w' = 3%nat /\ length (evals w') = (length (evals w) + 2)%nat.
Proof.
  intros Hp Henv. rewrite spsa_step_eq.
  destruct (store w !!! l) as [|t ts]; [done|]. cbn zeta.
  rewrite !evaluate_raising_at. unfold alloc. cbn [fst snd env]. rewrite Henv.
  cbn [Nat.eqb]. cbn zeta. cbn [env Nat.eqb].
  eexists. split; [done|]. cbn. rewrite !length_app. cbn. split; [done|lia].
Qed.

(** C8, as the code has it: when the cost function raises at its third
    call, a run of SPSA over at least one step is left by that very
    exception, after three calls in all and no more (no retry); the first
    call is the evaluation of the initial cost by the run loop, the second
    and the third are the two evaluations of the first step, so no step is
    completed, and each history holds its initial entry and nothing
    else. *)
Theorem third_call_failure cfg d e f init n interval eps
    (w : World real (SpsaState G) nat) :
  1 <= n -> interval <> 0 -> env w = 0%nat -> store w !!! init <> [] ->
  exists st w',
    run_optimizer (SPSAOptimizer cfg) (mkQNode d (raising_at 3 e f))
                  init n interval eps w
    = Aborted (Propagated e) st w' /\
    cost_history st = [f (store w !!! init)] /\
    exec_history st = [PyInt 0] /\
    env w' = 3%nat /\
    length (evals w') = (length (evals w) + 3)%nat.
Proof.
  intros Hn Hi Henv Hp. unfold run_optimizer.
  pose proof (copy_values init w) as Hv.
  destruct (copy init w) as [p w0] eqn:Ec. cbn [fst snd] in Hv.
  assert (env w0 = 0%nat /\ evals w0 = evals w) as (Henv0 & Hev0).
  { unfold copy, alloc in Ec. injection Ec as <- <-. by cbn. }
  rewrite evaluate_raising_at, Henv0. cbn [Nat.eqb]. cbn zeta.
  cbn [print store opt_state env evals stdout].
  rewrite range_cons by lia. cbn [loop].
  match goal with
  | |- context [status_check 0 interval ?st ?w1] =>
      destruct (status_check_returns (Err := CoreError X) 0 interval st w1 Hi)
        as (w2 & E2 & Hs2 & _ & He2 & Hv2); [cbn; lia..|]
  end.
  change (Z.of_nat 0) with 0 in E2. rewrite E2.
  cbn in Hs2, He2, Hv2.
  destruct (spsa_step_second_call_raises cfg d e f p w2) as (w3 & E & He3 & Hv3).
  { cbn. by rewrite Hs2, Hv. } { done. }
  cbn [step SPSAOptimizer param append_execs append_cost].
  rewrite E. do 2 eexists. split; [done|]. cbn. rewrite Hv.
  repeat split; try done. rewrite Hv3, Hv2, length_app, Hev0. cbn. lia.
Qed.

End FailingOracle.

(** ** Reproducible runs of SPSA *)

Section Reproducible.

Context {real G Env X : Type} {ops : RealOps real} {src : RandomSource G}.

Implicit Types (cfg : SpsaConfig real) (f : list real -> real).
Implicit Types (w : World real (SpsaState G) Env).

Lemma evaluate_deterministic {OptState : Type} d f l
    (w : World real OptState Env) :
  evaluate (Err := CoreError X) (mkQNode d (deterministic f)) l w =
  Ok (f (store w !!! l))
     (mkWorld (store w) (opt_state w) (env w)
              (evals w ++ [store w !!! l]) (stdout w)).
Proof. reflexivity. Qed.

(** With a deterministic cost function the step is a function of the
    values of its argument and of the state of the optimizer. *)
Lemma spsa_step_deterministic cfg d f l w t ts :
  store w !!! l = t :: ts ->
  let theta := t :: ts in
  let st := opt_state w in
  let dg := draw (length theta) (rng st) in
  let ck := c_k cfg (k st) in
  let plus := shifted radd ck theta dg.1 in
  let minus := shifted rsub ck theta dg.1 in
  let g_scale := rdiv (rsub (f plus) (f minus)) (rmul (of_Z 2) ck) in
  exists p w',
    spsa_step cfg
      (evaluate (Err := CoreError X) (mkQNode d (deterministic f))) l w
    = Ok p w' /\
    store w' !!! p = updated (a_k cfg (k st)) g_scale theta dg.1 /\
    opt_state w' = mkSpsaState (k st + 1) dg.2 /\
    evals w' = evals w ++ [plus; minus] /\
    stdout w' = stdout w.
Proof.
  intros Hl. cbn zeta. rewrite spsa_step_eq, Hl. cbn zeta.
  rewrite !evaluate_deterministic.
  set (w0 := mkWorld (store w) _ (env w) (evals w) (stdout w)).
  set (tp := shifted radd _ _ _). set (tm := shifted rsub _ _ _).
  destruct (alloc_lookup tp w0) as [Hp _].
  destruct (alloc_lookup tm (alloc tp w0).2) as [Hm Hpm].
  cbn [store opt_state env evals stdout].
  rewrite Hm, Hpm, Hp.
  2:{ unfold alloc. cbn. rewrite dom_insert_L. set_solver. }
  do 2 eexists. split; [done|]. cbn [store opt_state evals stdout env].
  split; [apply alloc_lookup|]. cbn. by rewrite <- app_assoc.
Qed.

Lemma status_check_agree i interval (st1 st2 : Locals real) w1 w2 :
  cost_history st1 = cost_history st2 ->
  exec_history st1 = exec_history st2 ->
  agree w1 w2 ->
  match status_check (Err := CoreError X) i interval st1 w1,
        status_check (Err := CoreError X) i interval st2 w2 with
  | Ok _ u1, Ok _ u2 =>
      agree u1 u2 /\ store u1 = store w1 /\ store u2 = store w2
  | Raise e1 u1, Raise e2 u2 => e1 = e2 /\ agree u1 u2
  | _, _ => False
  end.
Proof.
  intros Hc He (Ho & Hv & Hs).
  unfold status_check, print_status, print, raise, ret. rewrite Hc, He.
  destruct (interval =? 0); [done|].
  destruct (i mod interval =? 0); [|done].
  destruct (getitem _ _); [|done]. destruct (getitem _ _); [|done].
  repeat split; try done. cbn. by rewrite Hs.
Qed.

(** Two loops that start from worlds that agree, on parameters with the
    same values and with the same histories, end the same way. *)
Lemma loop_agree cfg d1 d2 f interval eps steps :
  forall (st1 st2 : Locals real) w1 w2,
    agree w1 w2 ->
    store w1 !!! param st1 = store w2 !!! param st2 ->
    cost_history st1 = cost_history st2 ->
    exec_history st1 = exec_history st2 ->
    match loop (SPSAOptimizer (X := X) cfg) (mkQNode d1 (deterministic f))
               interval eps steps st1 w1,
          loop (SPSAOptimizer (X := X) cfg) (mkQNode d2 (deterministic f))
               interval eps steps st2 w2 with
    | Exhausted a u1, Exhausted b u2 =>
        cost_history a = cost_history b /\
        exec_history a = exec_history b /\ agree u1 u2
    | Broken e1 a u1, Broken e2 b u2 =>
        e1 = e2 /\ cost_history a = cost_history b /\
        exec_history a = exec_history b /\ agree u1 u2
    | _, _ => False
    end.
Proof.
  induction steps as [|i rest IH]; intros st1 st2 w1 w2 Hw Hp Hc He; [done|].
  cbn [loop].
  pose proof (status_check_agree i interval st1 st2 w1 w2 Hc He Hw) as Hsc.
  destruct (status_check i interval st1 w1) as [[] u1|e1 u1],
           (status_check i interval st2 w2) as [[] u2|e2 u2]; try done.
  2:{ by destruct Hsc as [-> ?]. }
  destruct Hsc as ((Ho & Hv & Hs) & Hs1 & Hs2).
  cbn [step SPSAOptimizer].
  destruct (store w1 !!! param st1) as [|t ts] eqn:Et.
  - rewrite !spsa_step_eq, Hs1, Hs2, <- Hp, Et. done.
  - destruct (spsa_step_deterministic cfg d1 f (param st1) u1 t ts)
      as (p1 & v1 & -> & Hp1 & Ho1 & Hv1 & Hso1); [by rewrite Hs1|].
    destruct (spsa_step_deterministic cfg d2 f (param st2) u2 t ts)
      as (p2 & v2 & -> & Hp2 & Ho2 & Hv2 & Hso2); [by rewrite Hs2, <- Hp|].
    rewrite !evaluate_deterministic.
    assert (store v1 !!! p1 = store v2 !!! p2) as Hpp
      by (by rewrite Hp1, Hp2, Ho).
    apply IH; cbn; [|done|by rewrite Hpp, Hc|by rewrite He].
    repeat split; cbn; [by rewrite Ho1, Ho2, Ho| |by rewrite Hso1, Hso2].
    by rewrite Hv1, Hv2, Hv, Ho, Hpp.
Qed.

(** C9: two runs of SPSA with the same configuration, the same state of
    the optimizer (iteration index and seed of the random source), initial
    parameters with the same values and the same deterministic cost
    function end the same way, with the same [cost_history] and
    [exec_history], the same evaluations in the same order (the perturbed
    points and the parameters after each step) and the same printed lines,
    wherever the arrays are stored and whatever else the worlds hold. *)
Theorem spsa_runs_reproducible cfg d1 d2 f init1 init2 n interval eps w1 w2 :
  opt_state w1 = opt_state w2 ->
  store w1 !!! init1 = store w2 !!! init2 ->
  evals w1 = evals w2 ->
  stdout w1 = stdout w2 ->
  observation (run_optimizer (SPSAOptimizer (X := X) cfg)
                 (mkQNode d1 (deterministic f)) init1 n interval eps w1) =
  observation (run_optimizer (SPSAOptimizer (X := X) cfg)
                 (mkQNode d2 (deterministic f)) init2 n interval eps w2).
Proof.
  intros Ho Hi Hv Hs. unfold run_optimizer.
  pose proof (copy_values init1 w1) as Hc1.
  pose proof (copy_values init2 w2) as Hc2.
  destruct (copy init1 w1) as [p1 u1] eqn:E1.
  destruct (copy init2 w2) as [p2 u2] eqn:E2.
  cbn [fst snd] in Hc1, Hc2.
  assert (agree u1 u2) as (Ho' & Hv' & Hs').
  { unfold copy, alloc in E1, E2. injection E1 as <- <-. injection E2 as <- <-.
    by repeat split. }
  rewrite !evaluate_deterministic. cbn [print store opt_state env evals stdout].
  match goal with
  | |- context [loop _ _ _ _ _ ?st1 ?v1] =>
    match goal with
    | |- context [loop _ (mkQNode d2 _) _ _ _ ?st2 ?v2] =>
        pose proof (loop_agree cfg d1 d2 f interval eps (range n) st1 st2 v1 v2)
          as Hl
    end
  end.
  cbn in Hl. rewrite Hc1, Hc2, Hi, Ho', Hv', Hs' in Hl.
  specialize (Hl (conj eq_refl (conj eq_refl eq_refl)) eq_refl eq_refl eq_refl).
  rewrite Hc1, Hc2, Hi, Ho', Hv', Hs'.
  destruct (loop _ (mkQNode d1 _) _ _ _ _ _) as [a v1|e1 a v1],
           (loop _ (mkQNode d2 _) _ _ _ _ _) as [b v2|e2 b v2]; try done.
  - destruct Hl as (Hca & Hea & (Hoa & Hva & Hsa)).
    unfold print_status, print, raise. rewrite Hca, Hea.
    destruct (getitem _ _); [|cbn; by rewrite Hca, Hea, Hva, Hsa].
    destruct (getitem _ _); cbn; by rewrite ?Hca, ?Hea, Hva, Hsa.
  - destruct Hl as (-> & Hca & Hea & (Hoa & Hva & Hsa)). cbn.
    by rewrite Hca, Hea, Hva, Hsa.
Qed.

End Reproducible.

(** ** The gradient descent step *)

Section GradientDescentFacts.

Context {real OptState Env X : Type} {ops : RealOps real}.

Implicit Types (cfg : GdConfig real) (rule : ShiftRule real).
Implicit Types (cf : QNode real Env (CoreError X)).
Implicit Types (w : World real OptState Env).

(** With a cost function that returns and writes nothing, the rule issues
    two evaluations per index and yields one partial derivative per
    index. *)
Lemma partials_readonly rule cf theta indices :
  never_raises cf -> callable_readonly cf ->
  forall w, exists g w',
    partials rule (evaluate cf) theta indices w = Ok g w' /\
    length g = length indices /\
    length (evals w') = (length (evals w) + 2 * length indices)%nat.
Proof.
  intros Hnr Hro. induction indices as [|i rest IH]; intros w.
  - cbn. do 2 eexists. split; [done|]. split; [done|]. lia.
  - cbn [partials]. unfold bind, new_array.
    destruct (alloc _ w) as [lp w1] eqn:E1.
    destruct (alloc _ w1) as [lm w2] eqn:E2.
    destruct (evaluate_readonly cf lp w2 Hnr Hro) as (y1 & o1 & ->).
    match goal with
    | |- context [evaluate cf lm ?w3] =>
        destruct (evaluate_readonly cf lm w3 Hnr Hro) as (y2 & o2 & ->)
    end.
    match goal with
    | |- context [partials rule (evaluate cf) theta rest ?w4] =>
        destruct (IH w4) as (g & w' & -> & Hg & Hev)
    end.
    unfold ret. do 2 eexists. split; [done|]. cbn [length]. split; [lia|].
    rewrite Hev. cbn. rewrite !length_app. cbn.
    unfold alloc in E1, E2. injection E1 as _ <-. injection E2 as _ <-. cbn. lia.
Qed.

(** The step of gradient descent on [p >= 1] parameters: [2 * p]
    evaluations, and [p] parameters again. *)
Lemma gd_regular cfg rule cf (p : nat) :
  never_raises cf -> callable_readonly cf -> p <> 0%nat ->
  step_regular p (2 * p) (GradientDescentOptimizer (OptState := OptState) cfg rule) cf.
Proof.
  intros Hnr Hro Hp l w Hl.
  cbn [step GradientDescentOptimizer]. unfold gd_step, bind, read.
  destruct (store w !!! l) as [|t ts] eqn:Et; [cbn in Hl; lia|].
  unfold parameter_shift, bind, read. rewrite Et.
  destruct (partials_readonly rule cf (t :: ts) (seq 0 (length (t :: ts)))
              Hnr Hro w) as (g & w' & -> & Hg & Hev).
  rewrite length_seq in Hg, Hev. rewrite Hg, Nat.eqb_refl.
  unfold new_array.
  match goal with
  | |- context [alloc ?v w'] =>
      destruct (alloc_lookup v w') as [Hnew _];
      assert (evals (alloc v w').2 = evals w') as Hev' by reflexivity;
      destruct (alloc v w') as [l' w'']
  end.
  cbn [fst snd] in Hnew, Hev'.
  do 2 eexists. split; [done|]. split.
  - rewrite Hnew, length_zip_with. lia.
  - rewrite Hev', Hev. lia.
Qed.

(** On an array without values the step refuses the call at once. *)
Lemma gd_step_refuses cfg rule cf l w :
  store w !!! l = [] ->
  step (GradientDescentOptimizer cfg rule) (evaluate cf) l w
  = Raise (Propagated ConfigurationError) w.
Proof.
  intros Hl. cbn [step GradientDescentOptimizer].
  unfold gd_step, bind, read. by rewrite Hl.
Qed.

(** What the script declares per step of gradient descent while nothing
    overflows: twice the number of parameters, times the circuits per
    evaluation. *)
Lemma execs_per_step_grad_value e param_shape :
  0 <= Script.array_size param_shape ->
  Script.circuits_per_evaluation e * (2 * Script.array_size param_shape)
    < 2 ^ 63 ->
  Script.execs_per_step_grad e param_shape
  = Int64 (Script.circuits_per_evaluation e
           * (2 * Script.array_size param_shape)).
Proof.
  intros H0 Hlt. unfold Script.execs_per_step_grad, Script.np_prod.
  change (foldr Z.mul 1 param_shape) with (Script.array_size param_shape).
  assert (wrap64 (Script.array_size param_shape)
          = Script.array_size param_shape) as Hw.
  { apply wrap64_id. unfold fits64. destruct e; cbn in Hlt; lia. }
  destruct e; cbn [count_mul value Script.circuits_per_evaluation] in *;
    rewrite Hw; f_equal;
    match goal with
    | |- wrap64 ?x = ?y => replace y with x by lia
    end; apply wrap64_id; unfold fits64; lia.
Qed.


End GradientDescentFacts.

(** ** Hyperparameters that are refused, and those that are not *)

Section Refusals.

Context {real OptState Env Err : Type}.

Implicit Types (opt : Optimizer real OptState Env Err).
Implicit Types (cf : QNode real Env Err).
Implicit Types (w : World real OptState Env).

(** When the step refuses an array without values, a call on such an
    array is left at the first step, after the evaluation of the initial
    cost and before any other. *)
Lemma run_refused opt cf init n interval eps w e :
  1 <= n -> interval <> 0 ->
  never_raises cf -> callable_readonly cf ->
  store w !!! init = [] ->
  (forall l u, store u !!! l = [] -> step opt (evaluate cf) l u = Raise e u) ->
  exists st w',
    run_optimizer opt cf init n interval eps w = Aborted e st w' /\
    length (cost_history st) = 1%nat /\
    exec_history st = [PyInt 0] /\
    length (evals w') = (length (evals w) + 1)%nat.
Proof.
  intros Hn Hi Hnr Hro Hp Hstep. unfold run_optimizer.
  pose proof (copy_values init w) as Hv.
  destruct (copy init w) as [l w0] eqn:Ec. cbn [fst snd] in Hv.
  assert (evals w0 = evals w) as Hev0.
  { unfold copy, alloc in Ec. by injection Ec as <- <-. }
  destruct (evaluate_readonly cf l w0 Hnr Hro) as (y & o' & ->).
  cbn [print store opt_state env evals stdout].
  rewrite range_cons by lia. cbn [loop].
  match goal with
  | |- context [status_check 0 interval ?st ?w1] =>
      destruct (status_check_returns (Err := Err) 0 interval st w1 Hi)
        as (w2 & E2 & Hs2 & _ & _ & Hv2); [cbn; lia..|]
  end.
  change (Z.of_nat 0) with 0 in E2. rewrite E2.
  cbn in Hs2, Hv2.
  rewrite Hstep by (cbn; by rewrite Hs2, Hv, Hp).
  do 2 eexists. split; [done|]. cbn.
  split; [done|]. split; [done|]. rewrite Hv2, length_app, Hev0. done.
Qed.

End Refusals.

Section Configuration.

Context {real G OptState Env X : Type}.
Context {ops : RealOps real} {src : RandomSource G}.

Lemma new_SPSAOptimizer_inl (o : SpsaOptions real) :
  spsa_options_valid o = false ->
  new_SPSAOptimizer (G := G) (Env := Env) (X := X) o = inl ConfigurationError.
Proof.
  intros H. unfold new_SPSAOptimizer.
  generalize (eq_refl (spsa_options_valid o)).
  generalize (spsa_options_valid o) at 2 3. intros b Hb.
  destruct b; [congruence|done].
Qed.

Lemma new_SPSAOptimizer_inr (o : SpsaOptions real) opt :
  new_SPSAOptimizer (G := G) (Env := Env) (X := X) o = inr opt ->
  spsa_options_valid o = true /\
  exists cfg : SpsaConfig real, spsa_options cfg = o /\ opt = SPSAOptimizer cfg.
Proof.
  unfold new_SPSAOptimizer.
  generalize (eq_refl (spsa_options_valid o)).
  generalize (spsa_options_valid o) at 2 3. intros b Hb.
  destruct b; [|discriminate].
  intros [= <-]. split; [done|]. exists (mkSpsaConfig o Hb). by split.
Qed.

Lemma new_GradientDescentOptimizer_inl (o : GdOptions real) rule :
  gd_options_valid o = false ->
  new_GradientDescentOptimizer (OptState := OptState) (Env := Env) (X := X)
    o rule = inl ConfigurationError.
Proof.
  intros H. unfold new_GradientDescentOptimizer.
  generalize (eq_refl (gd_options_valid o)).
  generalize (gd_options_valid o) at 2 3. intros b Hb.
  destruct b; [congruence|done].
Qed.

(** On an array without values the step of SPSA refuses the call at
    once. *)
Lemma spsa_step_refuses (cfg : SpsaConfig real)
    (cf : QNode real Env (CoreError X)) l
    (w : World real (SpsaState G) Env) :
  store w !!! l = [] ->
  step (SPSAOptimizer cfg) (evaluate cf) l w
  = Raise (Propagated ConfigurationError) w.
Proof.
  intros Hl. cbn [step SPSAOptimizer]. by rewrite spsa_step_eq, Hl.
Qed.


End Configuration.

(** ** Concrete runs *)

(** The runs below use the cost functions [f(theta) = theta_0^2] and
    [f(theta) = theta_0^2 + theta_1^2 + ...], exact rational arithmetic,
    and SPSA with [c = 0.15], [a = 0.2] and the draws +1, -1. *)

(** The first step evaluates [f] at 1.15 and at 0.85; the estimate of the
    gradient is 2, and the new parameter is [1 - 0.2 * 2 = 0.6]. *)
Example spsa_step_golden :
  exists p w',
    spsa_step Demo.cfg (evaluate Demo.cost_function) Demo.init_param
              Demo.spsa_world = Ok p w' /\
    evals w' = [[Qmake 23 20]; [Qmake 17 20]] /\
    store w' !!! p = [Qmake 3 5] /\
    opt_state w' = mkSpsaState 2 [false].
Proof. do 2 eexists. split; [vm_compute; reflexivity|]. by vm_compute. Qed.

Lemma deterministic_never_raises {real Env Err : Type} d (f : list real -> real) :
  never_raises (Env := Env) (Err := Err) (mkQNode d (deterministic f)).
Proof. intros l s o. by eexists _, _, _. Qed.

Lemma deterministic_readonly {real Env Err : Type} d (f : list real -> real) :
  callable_readonly (Env := Env) (Err := Err) (mkQNode d (deterministic f)).
Proof. by intros l s o r s' o' [= <- <- <-]. Qed.

Lemma deterministic_frame {real Env Err : Type} d (f : list real -> real) :
  callable_frame (Env := Env) (Err := Err) (mkQNode d (deterministic f)).
Proof. intros l s o r s' o' [= <- <- <-]. done. Qed.

Lemma in_place_frame {real OptState Env Err : Type} (g : list real -> list real)
    (cf : QNode real Env Err) :
  step_frame (OptState := OptState) (InPlaceOptimizer g) cf.
Proof.
  intros l w p w' Hl [= <- <-]. cbn. rewrite dom_insert_L.
  repeat split; [set_solver|set_solver|by left|].
  intros l0 _ Hne. by rewrite lookup_insert_ne.
Qed.



(** A run of two steps yields histories of three entries, the costs of
    the two steps performed after the first. *)
Lemma history_lengths_witness :
  match run_optimizer Demo.opt Demo.cost_function Demo.init_param 2 1 2
                      Demo.spsa_world with
  | Returned ch eh _ =>
      0 <= 2 /\ Z.of_nat (length ch) = 2 + 1 /\ Z.of_nat (length eh) = 2 + 1 /\
      eh !! 0%nat = Some (PyInt 0) /\
      exists c0 (w2 : World Q (SpsaState (list bool)) unit) costs p' wf,
        performed Demo.opt Demo.cost_function 2 (copy Demo.init_param
          Demo.spsa_world).1 w2 costs p' wf /\
        ch = c0 :: costs
  | Aborted _ _ _ => False
  end.
Proof.
  destruct (run_optimizer _ _ _ _ _ _ _) as [ch eh w'|e st w'] eqn:E.
  - assert (0 <= 2) as Hn by lia. split; [exact Hn|].
    destruct (history_lengths _ _ _ _ _ _ _ _ _ _ Hn E)
      as (H1 & H2 & H3 & c0 & w1 & w2 & costs & p' & wf & _ & _ & _ & Hp & _
          & Hch & _).
    split; [exact H1|]. split; [exact H2|]. split; [exact H3|].
    exists c0, w2, costs, p', wf. split; [exact Hp|exact Hch].
  - vm_compute in E. discriminate E.
Defined.

(** With the [numpy.int64] count [2 * np.prod((5, 4, 3)) = 120] the
    history reads 0, 120, 240. *)
Lemma exec_history_increments_witness :
  match run_optimizer Demo.opt Demo.cost_function Demo.init_param 2 1
          (Script.execs_per_step_grad Script.Sampling [5; 4; 3])
          Demo.spsa_world with
  | Returned ch eh _ =>
      no_overflow 2 (Script.execs_per_step_grad Script.Sampling [5; 4; 3]) /\
      eh !! 1%nat = Some (Int64 120) /\ eh !! 2%nat = Some (Int64 240) /\
      240 = 120 + 120 /\ (0 <= 120 -> 120 <= 240) /\ (0 < 120 -> 120 < 240)
  | Aborted _ _ _ => False
  end.
Proof.
  destruct (run_optimizer _ _ _ _ _ _ _) as [ch eh w'|e st w'] eqn:E.
  - assert (no_overflow 2 (Script.execs_per_step_grad Script.Sampling
                             [5; 4; 3])) as Hno.
    { vm_compute. intros _. repeat split; discriminate. }
    assert (eh !! 1%nat = Some (Int64 120) /\ eh !! 2%nat = Some (Int64 240))
      as [H1 H2].
    { vm_compute in E. injection E as _ <- _. split; reflexivity. }
    split; [exact Hno|]. split; [exact H1|]. split; [exact H2|].
    exact (exec_history_increments _ _ _ _ _ _ _ _ _ _ E Hno 1%nat
             (Int64 120) (Int64 240) H1 H2).
  - vm_compute in E. discriminate E.
Defined.

(** With [execs_per_step = 0] the history reads 0, 0; with the
    [numpy.int64] count [2^62] it reads 0, [2^62], [-2^63]. *)
Lemma zero_cost_steps_do_not_increase :
  ~ (forall ch eh w',
       run_optimizer Demo.opt Demo.cost_function Demo.init_param 1 1 0
                     Demo.spsa_world = Returned ch eh w' ->
       forall j x y,
         eh !! j = Some x -> eh !! S j = Some y -> value x < value y) /\
  ~ (forall ch eh w',
       run_optimizer Trial.idle Demo.cost_function Demo.init_param 2 1
                     (Int64 (2 ^ 62)) Demo.spsa_world = Returned ch eh w' ->
       forall j x y,
         eh !! j = Some x -> eh !! S j = Some y ->
         value y = value x + 2 ^ 62).
Proof.
  split; intros H.
  - destruct (run_optimizer _ _ _ _ _ _ _) as [ch eh w'|e st w'] eqn:E.
    + specialize (H ch eh w' eq_refl).
      vm_compute in E. injection E as _ <- _.
      specialize (H 0%nat (PyInt 0) (PyInt 0) eq_refl eq_refl). cbn in H. lia.
    + vm_compute in E. discriminate E.
  - destruct (run_optimizer _ _ _ _ _ _ _) as [ch eh w'|e st w'] eqn:E.
    + specialize (H ch eh w' eq_refl).
      vm_compute in E. injection E as _ <- _.
      specialize (H 1%nat _ _ eq_refl eq_refl). vm_compute in H.
      discriminate H.
    + vm_compute in E. discriminate E.
Qed.



(** After two steps the last total is 4 and the log holds the three
    evaluations of the run loop at least. *)
Lemma monitoring_not_counted_witness :
  match run_optimizer Demo.opt Demo.cost_function Demo.init_param 2 1 2
                      Demo.spsa_world with
  | Returned ch eh w' =>
      0 <= 2 /\ step_keeps_log (Demo.opt (Env := unit)) Demo.cost_function /\
      no_overflow 2 (PyInt 2) /\
      value <$> eh !! 2%nat = Some 4 /\ 3 <= Z.of_nat (length (evals w'))
  | Aborted _ _ _ => False
  end.
Proof.
  destruct (run_optimizer _ _ _ _ _ _ _) as [ch eh w'|e st w'] eqn:E.
  - assert (0 <= 2) as Hn by lia.
    pose proof (spsa_keeps_log (G := list bool) Demo.cfg
                  (Demo.cost_function (Env := unit))) as Hlog.
    assert (no_overflow 2 (PyInt 2)) as Hno by exact I.
    split; [exact Hn|]. split; [exact Hlog|]. split; [exact Hno|].
    destruct (monitoring_not_counted _ _ _ _ _ _ _ _ _ _ Hn Hlog Hno E)
      as [H1 H2].
    split; [apply (H1 2%nat); lia|]. cbn in H2. lia.
  - vm_compute in E. discriminate E.
Defined.

(** After two steps of SPSA the cost function was evaluated 7 times and
    the last total is 4. *)
Lemma monitoring_evaluations_missing_from_totals :
  ~ (forall ch eh w',
       run_optimizer Demo.opt Demo.cost_function Demo.init_param 2 1 2
                     Demo.spsa_world = Returned ch eh w' ->
       value <$> last eh = Some (Z.of_nat (length (evals w')))).
Proof.
  intros H.
  destruct (run_optimizer _ _ _ _ _ _ _) as [ch eh w'|e st w'] eqn:E.
  - specialize (H ch eh w' eq_refl).
    vm_compute in E. injection E as _ <- <-. vm_compute in H. discriminate H.
  - vm_compute in E. discriminate E.
Qed.





(** The run of SPSA with the failing cost function: one entry in each
    history, three evaluations. *)
Lemma third_call_failure_witness :
  1 <= 5 /\ 1 <> 0 /\ env Demo.counting_world = 0%nat /\
  store Demo.counting_world !!! Demo.init_param <> [] /\
  exists st w',
    run_optimizer Demo.opt Demo.failing_cost_function Demo.init_param 5 1 2
                  Demo.counting_world
    = Aborted (Propagated (OracleError tt)) st w' /\
    cost_history st = [inject_Z 1] /\ exec_history st = [PyInt 0] /\
    length (evals w') = 3%nat.
Proof.
  assert (1 <= 5) as H1 by lia.
  assert (1 <> 0) as H2 by lia.
  assert (env Demo.counting_world = 0%nat) as H3 by reflexivity.
  assert (store Demo.counting_world !!! Demo.init_param <> []) as H4
    by (vm_compute; discriminate).
  repeat (split; [assumption|]).
  destruct (third_call_failure Demo.cfg Demo.aer (OracleError tt)
              Demo.square_first Demo.init_param 5 1 2 Demo.counting_world
              H1 H2 H3 H4) as (st & w' & E & Hc & He & _ & Hv).
  exists st, w'. split; [exact E|]. split; [rewrite Hc; reflexivity|].
  split; [exact He|exact Hv].
Defined.

(** When the third call raises, [cost_history] holds one entry under SPSA
    and two under an optimizer that evaluates nothing; in neither case
    three. *)
Lemma third_call_failure_leaves_fewer_entries :
  ~ (exists e st w',
       run_optimizer Demo.opt Demo.failing_cost_function Demo.init_param 5 1 2
                     Demo.counting_world = Aborted e st w' /\
       length (cost_history st) = 3%nat) /\
  ~ (exists e st w',
       run_optimizer IdleOptimizer Demo.failing_cost_function Demo.init_param
                     5 1 2 Demo.idle_world = Aborted e st w' /\
       length (cost_history st) = 3%nat).
Proof.
  split; intros (e & st & w' & H & Hl); vm_compute in H;
    injection H as _ <- _; discriminate Hl.
Qed.

(** The same run from two worlds with different stores. *)
Lemma spsa_runs_reproducible_witness :
  opt_state Demo.spsa_world = opt_state Demo.moved_world /\
  store Demo.spsa_world !!! 1%positive = store Demo.moved_world !!! 5%positive /\
  store Demo.spsa_world <> store Demo.moved_world /\
  observation (run_optimizer Demo.opt Demo.cost_function 1%positive 2 1 2
                 Demo.spsa_world) =
  observation (run_optimizer Demo.opt Demo.cost_function 5%positive 2 1 2
                 Demo.moved_world).
Proof.
  assert (opt_state Demo.spsa_world = opt_state Demo.moved_world) as H1
    by reflexivity.
  assert (store Demo.spsa_world !!! 1%positive
          = store Demo.moved_world !!! 5%positive) as H2 by reflexivity.
  split; [exact H1|]. split; [exact H2|]. split.
  - intros H. apply (f_equal (fun s => s !! 2%positive)) in H.
    vm_compute in H. discriminate H.
  - exact (spsa_runs_reproducible (X := unit) Demo.cfg Demo.aer Demo.aer
             Demo.square_first 1%positive 5%positive 2 1 2
             Demo.spsa_world Demo.moved_world H1 H2 eq_refl eq_refl).
Defined.

(** [interval = 0] with five steps: the exception, the initial entries,
    one evaluation and the banner. *)
Lemma zero_interval_raises_witness :
  match evaluate Demo.cost_function
          (copy Demo.init_param Demo.spsa_world).1
          (copy Demo.init_param Demo.spsa_world).2 with
  | Ok c0 w1 =>
      1 <= 5 /\
      observation (run_optimizer Demo.opt Demo.cost_function Demo.init_param
                     5 0 2 Demo.spsa_world)
      = (Some ZeroDivisionError, [c0], [PyInt 0], evals w1,
         stdout w1 ++ [Banner "SPSAOptimizer" 5])
  | Raise _ _ => False
  end.
Proof.
  destruct (evaluate _ _ _) as [c0 w1|e w1] eqn:E.
  - assert (1 <= 5) as Hn by lia. split; [exact Hn|].
    rewrite (zero_interval_raises Demo.opt _ _ 5 2 _ c0 w1 Hn E). reflexivity.
  - vm_compute in E. discriminate E.
Defined.

(** ** More on the run loop *)

Section RunLoopMore.

Context {real OptState Env Err : Type}.

Implicit Types (opt : Optimizer real OptState Env Err).
Implicit Types (cf : QNode real Env Err).
Implicit Types (st : Locals real) (w : World real OptState Env).

Ltac loop_step H :=
  cbn [loop] in H;
  repeat match type of H with
  | match ?x with _ => _ end = _ => let E := fresh "E" in destruct x eqn:E
  end;
  try discriminate H.

Lemma getitem_of_nat {A : Type} (l : list A) (i : nat) :
  getitem l (Z.of_nat i) = l !! i.
Proof.
  unfold getitem. destruct (0 <=? Z.of_nat i) eqn:E; [|apply Z.leb_gt in E; lia].
  by rewrite Nat2Z.id.
Qed.

(** What a status check prints. *)
Lemma status_check_stdout (i : nat) interval st w u w' :
  status_check (Err := Err) (Z.of_nat i) interval st w = Ok u w' ->
  stdout w' = stdout w ++
    (if Z.of_nat i mod interval =? 0
     then match exec_history st !! i, cost_history st !! i with
          | Some e, Some c => [Status (Z.of_nat i) e c]
          | _, _ => []
          end
     else []).
Proof.
  unfold status_check, print_status, print, raise, ret.
  destruct (interval =? 0); [discriminate|].
  destruct (Z.of_nat i mod interval =? 0).
  - rewrite !getitem_of_nat.
    destruct (exec_history st !! i); [|discriminate].
    destruct (cost_history st !! i); [|discriminate].
    by intros [= <- <-].
  - intros [= <- <-]. by rewrite app_nil_r.
Qed.

(** The lines the loop prints, for an optimizer that prints nothing. *)
Lemma loop_stdout opt cf interval eps m :
  step_silent opt cf ->
  forall i st w st' w',
    length (cost_history st) = S i ->
    length (exec_history st) = S i ->
    exec_history st !! i = Some (total eps i) ->
    loop opt cf interval eps (Z.of_nat <$> seq i m) st w = Exhausted st' w' ->
    stdout w' =
      stdout w ++ omap (status_line interval eps (cost_history st')) (seq i m).
Proof.
  intros Hsil. induction m as [|m IH]; intros i st w st' w' Hc He Hei H.
  - cbn in H. injection H as <- <-. by rewrite app_nil_r.
  - pose proof H as Hall.
    apply loop_exhausted in Hall as [(tail & Htail & _) _].
    cbn [seq fmap list_fmap] in H. loop_step H.
    match goal with
    | E : status_check _ _ _ _ = Ok _ _ |- _ =>
        apply status_check_stdout in E; rename E into Hs1
    end.
    match goal with
    | E : step _ _ _ _ = Ok _ _ |- _ => apply Hsil in E; rename E into Hs2
    end.
    match goal with
    | E : evaluate _ _ _ = Ok _ _ |- _ =>
        apply evaluate_ok in E as (_ & _ & Hs3 & _)
    end.
    apply IH in H; cbn.
    + rewrite H, Hs3, Hs2, Hs1, <- app_assoc. f_equal.
      cbn [omap list_omap]. unfold status_line at 2.
      rewrite Hei, Htail, lookup_app_l by lia.
      destruct (_ =? 0); [|done].
      destruct (cost_history st !! i) eqn:Ec; [done|].
      apply lookup_ge_None in Ec. lia.
    + rewrite length_app. cbn. lia.
    + rewrite length_app. cbn. lia.
    + rewrite lookup_app_r by lia. rewrite He, Nat.sub_diag.
      cbn [lookup list_lookup]. unfold total.
      by replace (Z.of_nat (S i)) with (Z.of_nat i + 1) by lia.
Qed.

(** X1: the lines a returning call prints, for an optimizer that prints
    nothing itself: the banner, a status line for each step [j] that is a
    multiple of [interval], with the total recorded at [j] and the cost
    recorded at [j], and a last line with [num_steps], the last total and
    the last cost.  The total recorded at [j] is [total execs_per_step j]:
    0 at index 0, then [j * execs_per_step] computed in the integer type
    of [execs_per_step], wrapped to 64 bits for a [numpy.int64]. *)
Theorem printed_lines opt cf init n interval eps w ch eh w' :
  0 <= n ->
  step_silent opt cf ->
  run_optimizer opt cf init n interval eps w = Returned ch eh w' ->
  exists c_last,
    last ch = Some c_last /\
    stdout w' =
      stdout w ++ Banner (class_name opt) n ::
      omap (status_line interval eps ch) (seq 0 (Z.to_nat n)) ++
      [Status n (total eps (Z.to_nat n)) c_last].
Proof.
  intros Hn Hsil. unfold run_optimizer.
  destruct (copy init w) as [p w0] eqn:Ec.
  assert (stdout w0 = stdout w) as Hs0.
  { unfold copy, alloc in Ec. by injection Ec as <- <-. }
  destruct (evaluate cf p w0) as [c0 w1|] eqn:Ee; [|discriminate].
  apply evaluate_ok in Ee as (_ & _ & Hs1 & _).
  cbn [print]. unfold range.
  destruct (loop _ _ _ _ _ _ _) as [st w3|] eqn:El; [|discriminate].
  pose proof El as Hshape. apply loop_exhausted in Hshape as [_ He].
  apply (loop_stdout _ _ _ _ _ Hsil) in El; [|done..].
  cbn in El. cbn -[count_mul] in He.
  unfold print_status, print, raise.
  destruct (getitem (exec_history st) (-1)) as [e|] eqn:Eg1; [|discriminate].
  destruct (getitem (cost_history st) (-1)) as [c|] eqn:Eg2; [|discriminate].
  intros [= <- <- <-]. exists c. cbn. split.
  - revert Eg2. destruct (cost_history st) as [|x l] using rev_ind.
    + unfold getitem. cbn. done.
    + rewrite getitem_last, last_snoc. done.
  - rewrite El, Hs1, Hs0. rewrite <- !app_assoc. cbn. do 4 f_equal.
    revert Eg1. rewrite He, scaled_steps.
    rewrite seq_S, fmap_app. cbn [fmap list_fmap Nat.add].
    rewrite getitem_last.
    by intros [= <-].
Qed.

(** When each step issues [q] evaluations, the loop adds [q + 1] per
    step. *)
Lemma loop_evals_count opt cf interval eps q m :
  step_issues q opt cf ->
  forall i st w st' w',
    loop opt cf interval eps (Z.of_nat <$> seq i m) st w = Exhausted st' w' ->
    length (evals w') = (length (evals w) + (q + 1) * m)%nat.
Proof.
  intros Hq. induction m as [|m IH]; intros i st w st' w' H.
  - cbn in H. injection H as <- <-. lia.
  - cbn [seq fmap list_fmap] in H. loop_step H.
    apply IH in H.
    match goal with
    | E : status_check _ _ _ _ = Ok _ _ |- _ =>
        apply status_check_ok in E as (_ & _ & _ & _ & Hs)
    end.
    match goal with
    | E : step _ _ _ _ = Ok _ _ |- _ => apply Hq in E
    end.
    match goal with
    | E : evaluate _ _ _ = Ok _ _ |- _ => apply evaluate_ok in E as (He & _)
    end.
    rewrite He, length_app in H. cbn in H. rewrite Hs in *. lia.
Qed.

(** X2: when every step of the optimizer issues [q] evaluations of the cost
    function, a returning call of [num_steps >= 0] steps issues
    [(q + 1) * num_steps + 1] of them: one for the initial cost and, per
    step, those of the optimizer and one for the new cost. *)
Theorem evaluations_issued q opt cf init n interval eps w ch eh w' :
  0 <= n ->
  step_issues q opt cf ->
  run_optimizer opt cf init n interval eps w = Returned ch eh w' ->
  Z.of_nat (length (evals w'))
  = Z.of_nat (length (evals w)) + (Z.of_nat q + 1) * n + 1.
Proof.
  intros Hn Hq. unfold run_optimizer.
  destruct (copy init w) as [p w0] eqn:Ec.
  assert (evals w0 = evals w) as <-.
  { unfold copy, alloc in Ec. by injection Ec as <- <-. }
  destruct (evaluate cf p w0) as [c0 w1|] eqn:Ee; [|discriminate].
  apply evaluate_ok in Ee as (Hev & _).
  cbn [print]. unfold range.
  destruct (loop _ _ _ _ _ _ _) as [st w3|] eqn:El; [|discriminate].
  apply (loop_evals_count _ _ _ _ _ _ Hq) in El. cbn in El.
  rewrite Hev, length_app in El. cbn in El.
  unfold print_status.
  destruct (getitem _ _); [|discriminate].
  destruct (getitem _ _); [|discriminate].
  intros [= <- <- <-]. cbn. nia.
Qed.

(** An exception leaves the loop before the last step is recorded. *)
Lemma loop_broken_short opt cf interval eps steps : forall st w e st' w',
  loop opt cf interval eps steps st w = Broken e st' w' ->
  exists j, (j < length steps)%nat /\
    length (cost_history st') = (length (cost_history st) + j)%nat /\
    length (exec_history st') = (length (exec_history st) + j)%nat.
Proof.
  induction steps as [|i rest IH]; intros st w e st' w' H.
  - discriminate.
  - loop_step H.
    + apply IH in H as (j & Hj & Hc & He). cbn in Hc, He.
      rewrite length_app in Hc, He. cbn in Hc, He.
      exists (S j). cbn. lia.
    + injection H as <- <- <-. exists 0%nat. cbn. lia.
    + injection H as <- <- <-. exists 0%nat. cbn. lia.
    + injection H as <- <- <-. exists 0%nat. cbn. lia.
Qed.

(** X3: when an exception leaves the call, [cost_history] and
    [exec_history] hold the same number of entries, and at most
    [num_steps] of them: a step is recorded in both or in neither, and the
    last step is never recorded. *)
Theorem aborted_histories opt cf init n interval eps w e st w' :
  run_optimizer opt cf init n interval eps w = Aborted e st w' ->
  length (cost_history st) = length (exec_history st) /\
  (length (cost_history st) <= Z.to_nat n)%nat.
Proof.
  unfold run_optimizer. destruct (copy init w) as [p w0].
  destruct (evaluate cf p w0) as [c0 w1|].
  2:{ intros [= <- <- <-]. cbn. lia. }
  cbn [print]. unfold range.
  destruct (loop _ _ _ _ _ _ _) as [st1 w3|e1 st1 w3] eqn:El.
  - apply loop_exhausted in El as [(tail & Hc & Hl) He]. cbn in Hc, He.
    unfold print_status.
    destruct (getitem_minus_one (exec_history st1)) as [x ->];
      [by rewrite He|].
    destruct (getitem_minus_one (cost_history st1)) as [y ->];
      [by rewrite Hc|].
    discriminate.
  - apply loop_broken_short in El as (j & Hj & Hc & He). cbn in Hc, He.
    rewrite length_fmap, length_seq in Hj.
    intros [= <- <- <-]. lia.
Qed.

(** With a status interval other than zero, what leaves the loop was
    raised by the cost function or by the optimizer. *)
Lemma loop_broken_origin opt cf interval eps m :
  interval <> 0 ->
  forall i st w e st' w',
    length (cost_history st) = S i -> length (exec_history st) = S i ->
    loop opt cf interval eps (Z.of_nat <$> seq i m) st w = Broken e st' w' ->
    (exists l w0, evaluate cf l w0 = Raise e w') \/
    (exists l w0, step opt (evaluate cf) l w0 = Raise e w').
Proof.
  intros Hi. induction m as [|m IH]; intros i st w e st' w' Hc He H.
  - discriminate.
  - cbn [seq fmap list_fmap loop] in H.
    destruct (status_check_returns (Err := Err) i interval st w Hi)
      as (w1 & E1 & _); [lia..|].
    rewrite E1 in H.
    destruct (step opt (evaluate cf) (param st) w1) as [p w2|e2 w2] eqn:E2.
    + destruct (evaluate cf p w2) as [c w3|e3 w3] eqn:E3.
      * apply IH in H; [done|cbn; rewrite length_app; cbn; lia..].
      * injection H as <- <- <-. left. eauto.
    + injection H as <- <- <-. right. eauto.
Qed.

(** X4: with a status interval other than zero, [run_optimizer] raises
    nothing of its own: its list indexing never leaves the bounds, and an
    exception that leaves the call was raised by a call of the cost
    function or of the optimizer step, and leaves the world as that call
    left it. *)
Theorem exceptions_come_from_callees opt cf init n interval eps w e st w' :
  interval <> 0 ->
  run_optimizer opt cf init n interval eps w = Aborted e st w' ->
  (exists l w0, evaluate cf l w0 = Raise e w') \/
  (exists l w0, step opt (evaluate cf) l w0 = Raise e w').
Proof.
  intros Hi. unfold run_optimizer. destruct (copy init w) as [p w0].
  destruct (evaluate cf p w0) as [c0 w1|e0 w1] eqn:Ee.
  2:{ intros [= <- <- <-]. left. eauto. }
  cbn [print]. unfold range.
  destruct (loop _ _ _ _ _ _ _) as [st1 w3|e1 st1 w3] eqn:El.
  - apply loop_exhausted in El as [(tail & Hc & Hl) He]. cbn in Hc, He.
    unfold print_status.
    destruct (getitem_minus_one (exec_history st1)) as [x ->];
      [by rewrite He|].
    destruct (getitem_minus_one (cost_history st1)) as [y ->];
      [by rewrite Hc|].
    discriminate.
  - apply (loop_broken_origin _ _ _ _ _ Hi) in El; [|done..].
    by intros [= <- <- <-].
Qed.

End RunLoopMore.

(** ** Collaborators without effects of their own *)

Section PureCollaborators.

Context {real OptState Env Err : Type}.

Implicit Types (opt : Optimizer real OptState Env Err).
Implicit Types (f : list real -> real) (g : list real -> list real).
Implicit Types (st : Locals real) (w : World real OptState Env).

Lemma evaluate_pure d f l w :
  evaluate (Err := Err) (mkQNode d (deterministic f)) l w =
  Ok (f (store w !!! l))
     (mkWorld (store w) (opt_state w) (env w)
              (evals w ++ [store w !!! l]) (stdout w)).
Proof. reflexivity. Qed.

(** The costs the loop records when each step computes [g] and the cost
    function is [f]. *)
Lemma loop_trajectory opt d f g theta interval eps m :
  interval <> 0 ->
  step_computes g opt (mkQNode d (deterministic f)) ->
  forall i st w,
    store w !!! param st = Nat.iter i g theta ->
    length (cost_history st) = S i -> length (exec_history st) = S i ->
    exists st' w',
      loop opt (mkQNode d (deterministic f)) interval eps
           (Z.of_nat <$> seq i m) st w = Exhausted st' w' /\
      cost_history st' =
        cost_history st ++ ((fun j => f (Nat.iter (S j) g theta)) <$> seq i m).
Proof.
  intros Hi Hg. induction m as [|m IH]; intros i st w Hp Hc He.
  - cbn. do 2 eexists. split; [done|]. by rewrite app_nil_r.
  - cbn [seq fmap list_fmap loop].
    destruct (status_check_returns (Err := Err) i interval st w Hi)
      as (w1 & -> & Hs1 & _); [lia..|].
    destruct (Hg (param st) w1) as (p & w2 & -> & Hp2).
    rewrite evaluate_pure.
    edestruct IH as (st' & w' & -> & Hch); cycle 3.
    + do 2 eexists. split; [done|]. rewrite Hch. cbn.
      rewrite <- app_assoc. cbn. by rewrite Hp2, Hs1, Hp.
    + cbn. by rewrite Hp2, Hs1, Hp.
    + cbn. rewrite length_app. cbn. lia.
    + cbn. rewrite length_app. cbn. lia.
Qed.

(** X6: with a status interval other than zero, a cost function that is a
    function [f] of the values of its argument and an optimizer whose step
    computes [g], the call returns, and entry [j] of [cost_history] is the
    cost of the initial parameters after [j] steps, [f (g^j theta)]: each
    step works on the result of the step before, and each cost is taken
    after the step. *)
Theorem cost_history_trajectory opt d f g init n interval eps w :
  interval <> 0 ->
  step_computes g opt (mkQNode d (deterministic f)) ->
  exists eh w',
    run_optimizer opt (mkQNode d (deterministic f)) init n interval eps w
    = Returned ((fun j => f (Nat.iter j g (store w !!! init)))
                  <$> seq 0 (S (Z.to_nat n))) eh w'.
Proof.
  intros Hi Hg. unfold run_optimizer.
  pose proof (copy_values init w) as Hv.
  destruct (copy init w) as [p w0]. cbn [fst snd] in Hv.
  rewrite evaluate_pure. cbn [print store opt_state env evals stdout].
  unfold range.
  match goal with
  | |- context [loop _ _ _ _ _ ?st1 ?w2] =>
      destruct (loop_trajectory opt d f g (store w !!! init) interval eps
                  (Z.to_nat n) Hi Hg 0%nat st1 w2)
        as (st' & w' & El & Hch); [by cbn|done..|]
  end.
  rewrite El. apply loop_exhausted in El as [_ He]. cbn in He, Hch.
  unfold print_status.
  destruct (getitem_minus_one (exec_history st')) as [x ->]; [by rewrite He|].
  destruct (getitem_minus_one (cost_history st')) as [y ->]; [by rewrite Hch|].
  cbn. do 2 eexists. f_equal. rewrite Hch, Hv. cbn. f_equal.
  by rewrite <- fmap_S_seq, <- list_fmap_compose.
Qed.

End PureCollaborators.

(** ** The calls of the script, one after the other *)

Section ScriptFacts.

Context {real OptState Env Err : Type}.

Implicit Types (opt : Optimizer real OptState Env Err).
Implicit Types (cf : QNode real Env Err).
Implicit Types (f : list real -> real) (below : real -> bool).
Implicit Types (w : World real OptState Env).

(** A call that returns leaves the caller's array in the store, with its
    values. *)
Lemma run_optimizer_frame opt cf init n interval eps w ch eh w' :
  init ∈ dom (store w) ->
  callable_frame cf -> step_frame opt cf ->
  run_optimizer opt cf init n interval eps w = Returned ch eh w' ->
  store w' !! init = store w !! init.
Proof.
  intros Hi Hcf Hopt H.
  destruct (copy_fresh init w) as [Hfresh Hstore].
  assert ((copy init w).1 <> init) as Hne by (intros E; by rewrite E in Hfresh).
  revert H. unfold run_optimizer.
  destruct (copy init w) as [p w0]. cbn [fst snd] in *.
  destruct (evaluate cf p w0) as [c0 w1|] eqn:Ee; [|discriminate].
  apply evaluate_ok in Ee as (_ & _ & _ & Ee). apply Hcf in Ee as (Hd1 & Hf1).
  cbn [print].
  destruct (loop _ _ _ _ _ _ _) as [st w3|] eqn:El; [|discriminate].
  apply (loop_frame _ _ _ _ init _ Hcf Hopt) in El; cbn.
  - unfold print_status, print, raise.
    destruct (getitem _ _); [|discriminate].
    destruct (getitem _ _); [|discriminate].
    intros [= <- <- <-]. cbn. cbn in El.
    rewrite El, Hf1, Hstore; [|rewrite Hstore; set_solver|done].
    by rewrite lookup_insert_ne.
  - rewrite Hstore in Hd1. set_solver.
  - rewrite Hstore in Hd1. set_solver.
  - done.
Qed.


Lemma np_where_head {A : Type} (cond : A -> bool) (l : list A) :
  forall i k,
    Script.np_where cond i l !! 0%nat = Some k ->
    exists j c,
      k = (i + j)%nat /\ l !! j = Some c /\ cond c = true /\
      forall t x, (t < j)%nat -> l !! t = Some x -> cond x = false.
Proof.
  induction l as [|x l IH]; intros i k H; [done|].
  cbn in H. destruct (cond x) eqn:Ex.
  - injection H as <-. exists 0%nat, x. repeat split; [lia|done..|]. lia.
  - apply IH in H as (j & c & -> & Hj & Hc & Hmin).
    exists (S j), c. repeat split; [lia|done..|].
    intros [|t] y Ht Hy; cbn in Hy; [by injection Hy as <- | ].
    apply (Hmin t); [lia|done].
Qed.

Lemma np_where_none {A : Type} (cond : A -> bool) (l : list A) :
  forall i,
    Script.np_where cond i l !! 0%nat = None <->
    forall x, x ∈ l -> cond x = false.
Proof.
  induction l as [|x l IH]; intros i; cbn.
  - split; [|done]. intros _ y Hy. by apply elem_of_nil in Hy.
  - destruct (cond x) eqn:Ex.
    + split; [done|]. intros H. rewrite H in Ex; [done|]. by left.
    + rewrite IH. split.
      * intros H y Hy. apply elem_of_cons in Hy as [->|Hy]; auto.
      * intros H y Hy. apply H. by right.
Qed.

Lemma np_where_first {A : Type} (cond : A -> bool) (l : list A) :
  forall i j c,
    l !! j = Some c -> cond c = true ->
    (forall t x, (t < j)%nat -> l !! t = Some x -> cond x = false) ->
    Script.np_where cond i l !! 0%nat = Some (i + j)%nat.
Proof.
  induction l as [|x l IH]; intros i j c Hj Hc Hmin; [done|].
  cbn. destruct j as [|j].
  - cbn in Hj. injection Hj as ->. rewrite Hc. cbn. f_equal. lia.
  - rewrite (Hmin 0%nat x) by (done || lia).
    rewrite (IH (S i) j c); [f_equal; lia|done..|].
    intros t y Ht Hy. apply (Hmin (S t)); [lia|done].
Qed.

(** X8: on the histories of a call that returned, the expression of lines
    312 and 313 yields the total recorded at the first index [j] whose
    cost is below the threshold; it is the Python integer 0, the divisor
    of the ratio of line 314, when the initial cost is below already; and
    while [num_steps * execs_per_step] fits the integer type of
    [execs_per_step] it stands for [j * execs_per_step], the executions
    spent in [j] steps. *)
Theorem execs_to_prec_first opt cf init n interval eps w ch eh w' below j c :
  run_optimizer opt cf init n interval eps w = Returned ch eh w' ->
  ch !! j = Some c -> below c = true ->
  (forall t x, (t < j)%nat -> ch !! t = Some x -> below x = false) ->
  Script.execs_to_prec (Err := Err) below eh ch = inr (total eps j) /\
  (j = 0%nat -> total eps j = PyInt 0) /\
  (no_overflow n eps -> value (total eps j) = Z.of_nat j * value eps).
Proof.
  intros H Hj Hc Hmin.
  apply run_optimizer_returned in H as (c0 & w1 & tail & _ & -> & Hl & ->).
  assert (j < S (Z.to_nat n))%nat as Hlt.
  { apply lookup_lt_Some in Hj. cbn in Hj. lia. }
  split; [|split].
  - unfold Script.execs_to_prec.
    rewrite (np_where_first below _ 0 j c Hj Hc Hmin). cbn [Nat.add].
    by rewrite getitem_of_nat, list_lookup_fmap, lookup_seq_lt.
  - by intros ->.
  - intros Hno. destruct j as [|j]; [done|].
    apply (total_value n); [done|lia].
Qed.

(** X9: on the histories of a call that returned, the expression of lines
    312 and 313 raises [IndexError] exactly when no recorded cost is below
    the threshold; the index into [exec_history] is never out of range. *)
Theorem execs_to_prec_fails opt cf init n interval eps w ch eh w' below :
  run_optimizer opt cf init n interval eps w = Returned ch eh w' ->
  Script.execs_to_prec (Err := Err) below eh ch = inl IndexError <->
  forall c, c ∈ ch -> below c = false.
Proof.
  intros H.
  apply run_optimizer_returned in H as (c0 & w1 & tail & _ & -> & Hl & ->).
  unfold Script.execs_to_prec.
  destruct (Script.np_where below 0 (c0 :: tail) !! 0%nat) as [k|] eqn:Ek.
  - apply np_where_head in Ek as (j & c & -> & Hj & Hc & _).
    cbn [Nat.add]. rewrite getitem_of_nat, list_lookup_fmap, lookup_seq_lt.
    2:{ apply lookup_lt_Some in Hj. cbn in Hj. lia. }
    cbn. split; [done|]. intros Hall.
    rewrite Hall in Hc; [done|]. by eapply list_elem_of_lookup_2.
  - split; [|done]. intros _. by apply (np_where_none below _ 0%nat).
Qed.

(** X10: with [execs_per_step >= 0], and while
    [num_steps * execs_per_step] fits the integer type of [execs_per_step],
    what the expression of lines 312 and 313 yields on the histories of a
    call that returned is the least total recorded with a cost below the
    threshold. *)
Theorem execs_to_prec_least opt cf init n interval eps w ch eh w' below e :
  0 <= value eps ->
  no_overflow n eps ->
  run_optimizer opt cf init n interval eps w = Returned ch eh w' ->
  Script.execs_to_prec (Err := Err) below eh ch = inr e ->
  forall i c x,
    ch !! i = Some c -> below c = true -> eh !! i = Some x ->
    value e <= value x.
Proof.
  intros Heps Hno H He i c x Hi Hc Hx.
  apply run_optimizer_returned in H as (c0 & w1 & tail & _ & -> & Hl & ->).
  unfold Script.execs_to_prec in He.
  destruct (Script.np_where below 0 (c0 :: tail) !! 0%nat) as [k|] eqn:Ek;
    [|discriminate].
  apply np_where_head in Ek as (j & cj & -> & Hj & Hcj & Hmin).
  cbn [Nat.add] in He. rewrite getitem_of_nat, list_lookup_fmap in He.
  rewrite lookup_seq_lt in He by (apply lookup_lt_Some in Hj; cbn in Hj; lia).
  cbn in He. injection He as <-.
  rewrite list_lookup_fmap in Hx.
  apply fmap_Some in Hx as (i' & Hi' & ->).
  apply lookup_seq in Hi' as [-> Hlt].
  cbn [Nat.add].
  assert (j <= i)%nat.
  { destruct (decide (i < j)%nat) as [Hlt'|]; [|lia].
    rewrite (Hmin i c Hlt' Hi) in Hc. done. }
  destruct i as [|i]; [by replace j with 0%nat by lia|].
  rewrite (total_value n eps j), (total_value n eps (S i)) by (done || lia).
  nia.
Qed.

End ScriptFacts.

(** ** More concrete runs *)

Lemma spsa_issues_two {real G Env X : Type} {ops : RealOps real}
    {src : RandomSource G} (cfg : SpsaConfig real)
    (cf : QNode real Env (CoreError X)) :
  step_issues 2 (SPSAOptimizer (G := G) cfg) cf.
Proof.
  intros l w p w' H. cbn [step SPSAOptimizer] in H. rewrite spsa_step_eq in H.
  destruct (store w !!! l) as [|t ts]; [discriminate|]. cbn zeta in H.
  destruct (evaluate cf _ _) as [y1 w3|] eqn:E1; [|discriminate].
  destruct (evaluate cf _ w3) as [y2 w4|] eqn:E2; [|discriminate].
  apply evaluate_ok in E1 as (Hev1 & _). apply evaluate_ok in E2 as (Hev2 & _).
  injection H as <- <-. cbn in *. rewrite Hev2, Hev1, !length_app. cbn. lia.
Qed.

Lemma idle_silent {real OptState Env Err : Type} (cf : QNode real Env Err) :
  step_silent (OptState := OptState) IdleOptimizer cf.
Proof. by intros l w p w' [= <- <-]. Qed.

Lemma idle_returns {real OptState Env Err : Type} (cf : QNode real Env Err) :
  step_returns (OptState := OptState) IdleOptimizer cf.
Proof. intros l w. by eexists _, _. Qed.

Lemma in_place_computes {real OptState Env Err : Type}
    (g : list real -> list real) (cf : QNode real Env Err) :
  step_computes (OptState := OptState) g (InPlaceOptimizer g) cf.
Proof.
  intros l w. do 2 eexists. split; [done|]. cbn.
  by rewrite lookup_total_insert_eq.
Qed.

(** The banner, the status lines of the steps 0, 20, ..., 140 and the last
    line, which reports the 4800 executions that the comment of lines 448
    to 450 expects for 160 steps at 30 executions each. *)
Lemma printed_lines_witness :
  match run_optimizer Trial.idle Demo.cost_function Demo.init_param
          (Script.num_steps_spsa Script.VQE) Script.interval_spsa
          (Script.execs_per_step_spsa Script.VQE) Demo.spsa_world with
  | Returned ch eh w' =>
      0 <= Script.num_steps_spsa Script.VQE /\
      length (stdout w') = 10%nat /\
      last (stdout w') = Some (Status 160 4800 (inject_Z 1))
  | Aborted _ _ _ => False
  end.
Proof.
  destruct (run_optimizer _ _ _ _ _ _ _) as [ch eh w'|e st w'] eqn:E.
  - assert (0 <= Script.num_steps_spsa Script.VQE) as Hn by (vm_compute; discriminate).
    split; [exact Hn|].
    destruct (printed_lines _ _ _ _ _ _ _ _ _ _ Hn (idle_silent _) E)
      as (c & Hc & ->).
    vm_compute in E. injection E as <- _ _.
    vm_compute in Hc. injection Hc as <-.
    split; reflexivity.
  - vm_compute in E. discriminate E.
Defined.

(** Two steps of SPSA: seven evaluations. *)
Lemma evaluations_issued_witness :
  match run_optimizer Demo.opt Demo.cost_function Demo.init_param 2 1 2
                      Demo.spsa_world with
  | Returned ch eh w' => 0 <= 2 /\ Z.of_nat (length (evals w')) = 7
  | Aborted _ _ _ => False
  end.
Proof.
  destruct (run_optimizer _ _ _ _ _ _ _) as [ch eh w'|e st w'] eqn:E.
  - assert (0 <= 2) as Hn by lia. split; [exact Hn|].
    rewrite (evaluations_issued 2 _ _ _ _ _ _ _ _ _ _ Hn
               (spsa_issues_two Demo.cfg Demo.cost_function) E).
    reflexivity.
  - vm_compute in E. discriminate E.
Defined.

(** The run that the failing cost function breaks off: one entry in each
    history, of five steps asked for. *)
Lemma aborted_histories_witness :
  match run_optimizer Demo.opt Demo.failing_cost_function Demo.init_param
          5 1 2 Demo.counting_world with
  | Returned _ _ _ => False
  | Aborted e st w' =>
      length (cost_history st) = length (exec_history st) /\
      (length (cost_history st) <= 5)%nat
  end.
Proof.
  destruct (run_optimizer _ _ _ _ _ _ _) as [ch eh w'|e st w'] eqn:E.
  - vm_compute in E. discriminate E.
  - exact (aborted_histories _ _ _ _ _ _ _ _ _ _ E).
Defined.

(** The same run: its exception was raised by a call of the cost function
    or of the step. *)
Lemma exceptions_come_from_callees_witness :
  match run_optimizer Demo.opt Demo.failing_cost_function Demo.init_param
          5 1 2 Demo.counting_world with
  | Returned _ _ _ => False
  | Aborted e st w' =>
      1 <> 0 /\
      ((exists l w0, evaluate Demo.failing_cost_function l w0 = Raise e w') \/
       (exists l w0,
          step Demo.opt (evaluate Demo.failing_cost_function) l w0
          = Raise e w'))
  end.
Proof.
  destruct (run_optimizer _ _ _ _ _ _ _) as [ch eh w'|e st w'] eqn:E.
  - vm_compute in E. discriminate E.
  - assert (1 <> 0) as Hi by lia. split; [exact Hi|].
    exact (exceptions_come_from_callees _ _ _ _ _ _ _ _ _ _ Hi E).
Defined.

(** A call with collaborators that do not raise returns. *)
Lemma run_optimizer_returns_witness :
  20 <> 0 /\
  never_raises (Demo.cost_function (Env := unit)) /\
  step_returns (Trial.idle (Env := unit)) Demo.cost_function /\
  exists ch eh w',
    run_optimizer Trial.idle Demo.cost_function Demo.init_param 200 20 2
                  Demo.spsa_world = Returned ch eh w'.
Proof.
  assert (20 <> 0) as Hi by lia.
  pose proof (deterministic_never_raises (Env := unit) (Err := CoreError unit)
                Demo.aer Demo.square_first) as Hcf.
  pose proof (idle_returns (OptState := SpsaState (list bool))
                (Demo.cost_function (Env := unit))) as Hopt.
  split; [exact Hi|]. split; [exact Hcf|]. split; [exact Hopt|].
  exact (run_optimizer_returns Trial.idle Demo.cost_function Demo.init_param
           200 20 2 Demo.spsa_world Hi Hcf Hopt).
Defined.

(** Halving the parameter at each step: the costs 1, 1/4, 1/16, 1/64. *)
Lemma cost_history_trajectory_witness :
  1 <> 0 /\
  exists eh w',
    run_optimizer Trial.halving Demo.cost_function Demo.init_param 3 1 2
                  Demo.spsa_world
    = Returned [inject_Z 1; Qmake 1 4; Qmake 1 16; Qmake 1 64] eh w'.
Proof.
  assert (1 <> 0) as Hi by lia. split; [exact Hi|].
  exact (cost_history_trajectory Trial.halving Demo.aer Demo.square_first
           Trial.halve Demo.init_param 3 1 2 Demo.spsa_world Hi
           (in_place_computes _ _)).
Defined.


(** With the costs 1, 1/4, 1/16, 1/64 and two executions per step, the
    first cost below 1/10 is the third, after 4 executions. *)
Lemma execs_to_prec_first_witness :
  match run_optimizer Trial.halving Demo.cost_function Demo.init_param 3 1 2
                      Demo.spsa_world with
  | Returned ch eh w' =>
      ch !! 2%nat = Some (Qmake 1 16) /\
      Trial.below (Qmake 1 10) (Qmake 1 16) = true /\
      Script.execs_to_prec (Err := CoreError unit)
        (Trial.below (Qmake 1 10)) eh ch = inr (PyInt 4)
  | Aborted _ _ _ => False
  end.
Proof.
  destruct (run_optimizer _ _ _ _ _ _ _) as [ch eh w'|e st w'] eqn:E.
  - assert (ch = [inject_Z 1; Qmake 1 4; Qmake 1 16; Qmake 1 64]) as Hch.
    { vm_compute in E. injection E as <- _ _. reflexivity. }
    assert (ch !! 2%nat = Some (Qmake 1 16)) as Hj by (rewrite Hch; reflexivity).
    assert (Trial.below (Qmake 1 10) (Qmake 1 16) = true) as Hc by reflexivity.
    assert (forall t x, (t < 2)%nat -> ch !! t = Some x ->
                        Trial.below (Qmake 1 10) x = false) as Hmin.
    { rewrite Hch. intros [|[|t]] x Ht Hx; [| |lia];
        cbn in Hx; injection Hx as <-; reflexivity. }
    split; [exact Hj|]. split; [exact Hc|].
    exact (proj1 (execs_to_prec_first _ _ _ _ _ _ _ _ _ _ _ 2%nat _ E Hj Hc
                    Hmin)).
  - vm_compute in E. discriminate E.
Defined.

(** No cost of that run is below 1/100: [IndexError]. *)
Lemma execs_to_prec_fails_witness :
  match run_optimizer Trial.halving Demo.cost_function Demo.init_param 3 1 2
                      Demo.spsa_world with
  | Returned ch eh w' =>
      (forall c, c ∈ ch -> Trial.below (Qmake 1 100) c = false) /\
      Script.execs_to_prec (Err := CoreError unit)
        (Trial.below (Qmake 1 100)) eh ch = inl IndexError
  | Aborted _ _ _ => False
  end.
Proof.
  destruct (run_optimizer _ _ _ _ _ _ _) as [ch eh w'|e st w'] eqn:E.
  - assert (forall c, c ∈ ch -> Trial.below (Qmake 1 100) c = false) as Hall.
    { vm_compute in E. injection E as <- _ _. intros c Hc.
      repeat (apply elem_of_cons in Hc as [->|Hc]; [reflexivity|]).
      by apply elem_of_nil in Hc. }
    split; [exact Hall|].
    exact (proj2 (execs_to_prec_fails _ _ _ _ _ _ _ _ _ _ _ E) Hall).
  - vm_compute in E. discriminate E.
Defined.

(** With the [numpy.int64] count 2, the 4 executions found for the
    threshold 1/10 are no more than the 6 recorded with the last cost,
    1/64. *)
Lemma execs_to_prec_least_witness :
  match run_optimizer Trial.halving Demo.cost_function Demo.init_param 3 1
                      (Int64 2) Demo.spsa_world with
  | Returned ch eh w' =>
      0 <= value (Int64 2) /\ no_overflow 3 (Int64 2) /\
      Script.execs_to_prec (Err := CoreError unit)
        (Trial.below (Qmake 1 10)) eh ch = inr (Int64 4) /\
      ch !! 3%nat = Some (Qmake 1 64) /\ eh !! 3%nat = Some (Int64 6) /\
      4 <= 6
  | Aborted _ _ _ => False
  end.
Proof.
  destruct (run_optimizer _ _ _ _ _ _ _) as [ch eh w'|e st w'] eqn:E.
  - assert (0 <= value (Int64 2)) as Heps by (cbn; lia).
    assert (no_overflow 3 (Int64 2)) as Hno.
    { unfold no_overflow, fits64. lia. }
    assert (ch = [inject_Z 1; Qmake 1 4; Qmake 1 16; Qmake 1 64] /\
            eh = [PyInt 0; Int64 2; Int64 4; Int64 6]) as [Hch Heh].
    { vm_compute in E. injection E as <- <- _. split; reflexivity. }
    assert (Script.execs_to_prec (Err := CoreError unit)
              (Trial.below (Qmake 1 10)) eh ch = inr (Int64 4)) as He
      by (rewrite Hch, Heh; reflexivity).
    assert (ch !! 3%nat = Some (Qmake 1 64)) as Hi by (rewrite Hch; reflexivity).
    assert (eh !! 3%nat = Some (Int64 6)) as Hx by (rewrite Heh; reflexivity).
    split; [exact Heps|]. split; [exact Hno|]. split; [exact He|].
    split; [exact Hi|]. split; [exact Hx|].
    exact (execs_to_prec_least _ _ _ _ _ _ _ _ _ _ _ (Int64 4) Heps Hno E He
             3%nat (Qmake 1 64) (Int64 6) Hi eq_refl Hx).
  - vm_compute in E. discriminate E.
Defined.
